(** * CIRL-multigrid: the grid and agent-state core, embedded in Rocq

    Shallow embedding of [multigrid/core/grid.py] and
    [multigrid/core/agent.py].  Python objects that are mutated in place
    (numpy buffers, [WorldObj] handles, the [world_objects] dictionary, the
    class-level [tile_cache]) live in explicit stores that are threaded
    through a small exception-and-state monad: a raised exception keeps the
    writes made before it, exactly as in Python. *)

From Stdlib Require Import ZArith QArith Bool Lia.
From stdpp Require Import base option list gmap strings.

Local Open Scope Z_scope.

(** ** Exceptions and the state monad *)

(** The built-in exceptions the modelled code can raise. *)
Inductive exn : Type :=
| AssertionError
| TypeError
| AttributeError
| IndexError
| ValueError
| OverflowError.

(** A computation over a store [St]: it returns a value or raises, and in
    both cases hands back the store as it left it. *)
Definition M (St A : Type) : Type := St -> (exn + A) * St.

Definition ret {St A : Type} (a : A) : M St A := fun s => (inr a, s).

Definition raise {St A : Type} (e : exn) : M St A := fun s => (inl e, s).

Definition bind {St A B : Type} (m : M St A) (k : A -> M St B) : M St B :=
  fun s =>
    match m s with
    | (inr a, s') => k a s'
    | (inl e, s') => (inl e, s')
    end.

Definition gets {St A : Type} (f : St -> A) : M St A := fun s => (inr (f s), s).

Definition modify {St : Type} (f : St -> St) : M St unit := fun s => (inr tt, f s).

(** Python's [assert b]. *)
Definition assert_ {St : Type} (b : bool) : M St unit :=
  if b then ret tt else raise AssertionError.

Notation "x <- m ;; k" := (bind m (fun x => k))
  (at level 100, m at next level, right associativity).
Notation "m ;;; k" := (bind m (fun _ => k))
  (at level 100, right associativity).

(** [for x in xs: body x] *)
Fixpoint for_each {St A : Type} (xs : list A) (body : A -> M St unit) : M St unit :=
  match xs with
  | [] => ret tt
  | x :: xs' => body x ;;; for_each xs' body
  end.

(** [[body x for x in xs]] *)
Fixpoint for_list {St A B : Type} (xs : list A) (body : A -> M St B) : M St (list B) :=
  match xs with
  | [] => ret []
  | x :: xs' => b <- body x ;; bs <- for_list xs' body ;; ret (b :: bs)
  end.

(** [range(n)] as a list of integers. *)
Definition range (n : Z) : list Z := map Z.of_nat (seq 0 (Z.to_nat n)).

(** ** Enumerations of [constants.py] *)

Module Type_.

(** Modelled from the spec: [constants.Type], the enumeration of object
    kinds (section 3: empty, wall, floor, door, key, ball, box, goal, lava,
    agent), preceded by the reserved member [unseen] whose index is the
    zero that [Grid.encode] writes into masked cells (sections 4.2 and 6).
    With that layout [agent] has index 10, the value the repository's
    script [test2.py] compares a cell type against. *)
Inductive t : Type :=
| unseen | empty | wall | floor | door | key | ball | box | goal | lava | agent.

Definition to_index (x : t) : Z :=
  match x with
  | unseen => 0 | empty => 1 | wall => 2 | floor => 3 | door => 4 | key => 5
  | ball => 6 | box => 7 | goal => 8 | lava => 9 | agent => 10
  end.

End Type_.

Module Color.

(** Modelled from the spec: [constants.Color], the colour enumeration of
    section 3 (red, green, blue, purple, yellow, grey); [test2.py] reads
    index 0 as red and index 1 as green. *)
Inductive t : Type := red | green | blue | purple | yellow | grey.

Definition to_index (c : t) : Z :=
  match c with
  | red => 0 | green => 1 | blue => 2 | purple => 3 | yellow => 4 | grey => 5
  end.

(** [len(Color)] *)
Definition len : Z := 6.

(** [Color.from_index(i)]; an index outside the enumeration is an error. *)
Definition from_index (i : Z) : option t :=
  match i with
  | 0 => Some red | 1 => Some green | 2 => Some blue
  | 3 => Some purple | 4 => Some yellow | 5 => Some grey
  | _ => None
  end.

(** [Color(name)]: the member with that name; an unknown name is an error. *)
Definition of_name (s : string) : option t :=
  if String.eqb s "red" then Some red
  else if String.eqb s "green" then Some green
  else if String.eqb s "blue" then Some blue
  else if String.eqb s "purple" then Some purple
  else if String.eqb s "yellow" then Some yellow
  else if String.eqb s "grey" then Some grey
  else None.

End Color.

Module Direction.

(** Modelled from the spec: [constants.Direction], right=0, down=1,
    left=2, up=3 (section 3; the same numbering is in the docstring of
    [AgentState]). *)
Inductive t : Type := right | down | left | up.

Definition to_index (d : t) : Z :=
  match d with right => 0 | down => 1 | left => 2 | up => 3 end.

(** [Direction(i)]: the member with value [i]; any other integer, the
    unset value -1 included, is not a member. *)
Definition of_index (i : Z) : option t :=
  match i with
  | 0 => Some right | 1 => Some down | 2 => Some left | 3 => Some up
  | _ => None
  end.

(** Modelled from the spec (section 4.4): the unit vector of a direction,
    right -> (+1,0), down -> (0,+1), left -> (-1,0), up -> (0,-1). *)
Definition to_vec (d : t) : Z * Z :=
  match d with
  | right => (1, 0) | down => (0, 1) | left => (-1, 0) | up => (0, -1)
  end.

End Direction.

(** ** World-object records ([world_object.py]) *)

Module WorldObj.

(** Modelled from the spec: [WorldObj.dim], the width of a Cell Record
    (section 3); the record is the triple (type, color, aux) that
    [Grid.encode] and [Grid.decode] exchange (sections 4.2 and 6). *)
Definition dim : nat := 3.

(** One Cell Record: a row of a [WorldObjState] array. *)
Record record : Type := Rec { type_idx : Z; color_idx : Z; aux : Z }.

#[global] Instance record_eq_dec : EqDecision record.
Proof. solve_decision. Defined.

(** Modelled from the spec: [WorldObjState.empty()] / [WorldObj.empty()],
    the record of an empty cell: type [empty], colour and aux zero
    (section 3, invariant of the Cell Record). *)
Definition empty : record := Rec (Type_.to_index Type_.empty) 0 0.

(** Modelled from the spec: [WorldObj.encode()], the triple
    (type_index, color_index, aux) of the handle's record (section 6). *)
Definition encode (r : record) : Z * Z * Z := (type_idx r, color_idx r, aux r).

(** The record as the integers numpy stores when it is assigned into an
    integer array. *)
Definition to_row (r : record) : list Z := [type_idx r; color_idx r; aux r].

End WorldObj.

(** ** [AgentState]: a numpy array subclass with named-field accessors *)

(** Column layout of an agent record ([agent.py], lines 26-31). *)
Definition TYPE : nat := 0.
Definition COLOR : nat := 1.
Definition DIR : nat := 2.
Definition POS : nat := 3.        (* slice(3, 5) *)
Definition TERMINATED : nat := 5.
Definition CARRYING : nat := 6.   (* slice(6, 6 + WorldObj.dim) *)

(** A numpy buffer owned by one [AgentState(...)] call: the integer
    records in C order, and beside it the object array [_carried_obj]
    ([None], or a reference to the carried [WorldObj]). *)
Record Buffer : Type := {
  rows : list (list Z);
  carried_obj : list (option nat)
}.

(** The interpreter's heap of such buffers, addressed by position. *)
Abbreviation Store := (list Buffer).

(** An [AgentState] object: a window of [prod dims] consecutive records of
    buffer [base], starting at record [offset].  Integer indexing of a
    C-contiguous array always yields such a window, and the attributes
    [_view] and [_carried_obj] that [__getitem__] copies over are windows
    with the same bounds on the same buffer. *)
Record AgentState : Type := {
  base : nat;
  offset : nat;
  dims : list nat
}.

Module AgentState.

(** [AgentState.dim = 6 + WorldObj.dim] *)
Definition dim : nat := (6 + WorldObj.dim)%nat.

(** [np.prod(dims)] *)
Definition size (ds : list nat) : nat := foldr Nat.mul 1%nat ds.

Definition in_window (s : AgentState) (n : nat) : bool :=
  (offset s <=? n)%nat && (n <? offset s + size (dims s))%nat.

(** In-place update of the records of the window; [f] gets the flat index
    inside the window. *)
Definition update_rows (s : AgentState) (f : nat -> list Z -> list Z) (b : Buffer) : Buffer :=
  {| rows := imap (fun n row => if in_window s n then f (n - offset s)%nat row else row) (rows b);
     carried_obj := carried_obj b |}.

Definition update_carried (s : AgentState) (o : option nat) (b : Buffer) : Buffer :=
  {| rows := rows b;
     carried_obj := imap (fun n x => if in_window s n then o else x) (carried_obj b) |}.

Definition window_rows (st : Store) (s : AgentState) : list (list Z) :=
  match st !! base s with
  | Some b => take (size (dims s)) (drop (offset s) (rows b))
  | None => []
  end.

Definition window_carried (st : Store) (s : AgentState) : list (option nat) :=
  match st !! base s with
  | Some b => take (size (dims s)) (drop (offset s) (carried_obj b))
  | None => []
  end.

(** [self._view[..., c]]: column [c] of every record of the window. *)
Definition column (st : Store) (s : AgentState) (c : nat) : list Z :=
  map (fun row => row !!! c) (window_rows st s).

(** The buffer holds 64-bit integers ([np.zeros(..., dtype=int)], line 91). *)
Definition in_int64 (v : Z) : bool :=
  (-9223372036854775808 <=? v) && (v <=? 9223372036854775807).

(** The in-place write of column [c] of the window: record [n] of the
    window gets [f n], an integer of the buffer's type. *)
Definition write_column (s : AgentState) (c : nat) (f : nat -> Z) : M Store unit :=
  modify (alter (update_rows s (fun n row => <[c := f n]> row)) (base s)).

(** [self[..., c] = value] for a Python integer: numpy first converts
    the value to the type of the buffer, which raises OverflowError when
    it does not fit, and then writes it into every record of the view. *)
Definition set_column (s : AgentState) (c : nat) (value : Z) : M Store unit :=
  if in_int64 value then write_column s c (fun _ => value) else raise OverflowError.

(** What a field accessor returns: one value for a scalar record
    ([out.ndim == 0]), the values in batch order otherwise. *)
Inductive field (A : Type) : Type :=
| Scalar (a : A)
| Batch (l : list A).
Arguments Scalar {A} a.
Arguments Batch {A} l.

Definition as_field {A : Type} (s : AgentState) (dflt : A) (l : list A) : field A :=
  match dims s with
  | [] => Scalar (default dflt (l !! 0%nat))
  | _ => Batch l
  end.

(** [__new__(cls, *dims)], lines 90-104. *)
Definition new (ds : list nat) : M Store AgentState :=
  fun st =>
    let n := size ds in
    (* obj = np.zeros(dims + (cls.dim,), dtype=int).view(cls) *)
    let obj := {| base := length st; offset := 0; dims := ds |} in
    let zeros := {| rows := replicate n (replicate dim 0); carried_obj := [] |} in
    (set_column obj TYPE (Type_.to_index Type_.agent) ;;;
     (* obj[..., COLOR] goes through the overridden __getitem__: when the
        last axis of the result has length dim it reads self._view, which
        is only assigned at the end of __new__ *)
     (if bool_decide (last ds = Some dim) then raise AttributeError else ret tt) ;;;
     (* the right-hand side, np.arange(...) % len(Color), is an array of
        the buffer's type already *)
     write_column obj COLOR (fun k => Z.of_nat k mod Color.len) ;;;
     set_column obj DIR (-1) ;;;
     set_column obj POS (-1) ;;;
     set_column obj (S POS) (-1) ;;;
     set_column obj TERMINATED 0 ;;;
     (* obj._carried_obj = np.empty(dims, dtype=object) *)
     modify (alter (fun b => {| rows := rows b; carried_obj := replicate n None |}) (base obj)) ;;;
     ret obj) (st ++ [zeros]).

(** What [self[idx]] evaluates to for an integer [idx]. *)
Inductive item : Type :=
| ItemState (s : AgentState)   (* a record view: the trailing axis is still dim *)
| ItemInt (z : Z).             (* one integer of a scalar record *)

(** numpy's handling of an integer index on an axis of length [n]. *)
Definition norm_index (idx : Z) (n : nat) : option nat :=
  if (0 <=? idx) && (idx <? Z.of_nat n) then Some (Z.to_nat idx)
  else if (- Z.of_nat n <=? idx) && (idx <? 0) then Some (Z.to_nat (idx + Z.of_nat n))
  else None.

(** [__getitem__(self, idx)], lines 110-115, for an integer [idx].  The
    result of [super().__getitem__] shares the buffer; when its trailing
    axis has length dim, [_view] and [_carried_obj] are re-sliced with the
    same index, so the three windows coincide. *)
Definition getitem (self : AgentState) (idx : Z) : M Store item :=
  match dims self with
  | n :: rest =>
      match norm_index idx n with
      | Some k =>
          ret (ItemState {| base := base self;
                            offset := offset self + k * size rest;
                            dims := rest |})
      | None => raise IndexError
      end
  | [] =>
      match norm_index idx dim with
      | Some c => st <- gets (fun st => column st self c) ;; ret (ItemInt (default 0 (st !! 0%nat)))
      | None => raise IndexError
      end
  end.

(** [color] getter, lines 117-122: [Color.from_index(self._view[..., COLOR])]. *)
Definition color (self : AgentState) : M Store (field Color.t) :=
  idx <- gets (fun st => column st self COLOR) ;;
  match mapM Color.from_index idx with
  | Some cs => ret (as_field self Color.red cs)
  | None => raise ValueError
  end.

(** [color] setter, lines 124-129: the name is turned into a member with
    [Color(c)] and stored as its index in every record of the view. *)
Definition set_color (self : AgentState) (value : string) : M Store unit :=
  match Color.of_name value with
  | Some c => set_column self COLOR (Color.to_index c)
  | None => raise ValueError
  end.

(** What [dir] returns: a [Direction] for a scalar record, the raw integer
    array for a batch. *)
Inductive dir_value : Type :=
| DirScalar (d : Direction.t)
| DirBatch (l : list Z).

(** [dir] getter, lines 131-137. *)
Definition dir (self : AgentState) : M Store dir_value :=
  out <- gets (fun st => column st self DIR) ;;
  match dims self with
  | [] =>
      match Direction.of_index (default 0 (out !! 0%nat)) with
      | Some d => ret (DirScalar d)
      | None => raise ValueError
      end
  | _ => ret (DirBatch out)
  end.

(** [dir] setter, lines 139-144, for an integer value (numpy broadcasts
    it over the view). *)
Definition set_dir (self : AgentState) (value : Z) : M Store unit :=
  set_column self DIR value.

(** [pos] getter, lines 146-152. *)
Definition pos (self : AgentState) : M Store (field (Z * Z)) :=
  xs <- gets (fun st => column st self POS) ;;
  ys <- gets (fun st => column st self (S POS)) ;;
  ret (as_field self (0, 0) (zip xs ys)).

(** [pos] setter, lines 154-159, for one point: one assignment to the
    two columns of the slice [POS], so both coordinates are converted
    before either is written. *)
Definition set_pos (self : AgentState) (value : Z * Z) : M Store unit :=
  if in_int64 value.1 && in_int64 value.2
  then write_column self POS (fun _ => value.1) ;;;
       write_column self (S POS) (fun _ => value.2)
  else raise OverflowError.

(** [terminated] getter, lines 161-167: [astype(bool)] of the column. *)
Definition terminated (self : AgentState) : M Store (field bool) :=
  out <- gets (fun st => column st self TERMINATED) ;;
  ret (as_field self false (map (fun z => negb (z =? 0)) out)).

(** [terminated] setter, lines 169-174. *)
Definition set_terminated (self : AgentState) (value : bool) : M Store unit :=
  set_column self TERMINATED (if value then 1 else 0).

(** [carrying] getter, lines 176-182: the object references, not the
    numeric sub-record. *)
Definition carrying (self : AgentState) : M Store (field (option nat)) :=
  out <- gets (fun st => window_carried st self) ;;
  ret (as_field self None out).

(** [carrying] setter, lines 184-190, for [None]: the numeric sub-record
    becomes [WorldObj.empty()] and the reference [None]. *)
Definition set_carrying_None (self : AgentState) : M Store unit :=
  modify (alter (update_rows self (fun _ row =>
            take CARRYING row ++ WorldObj.to_row WorldObj.empty
              ++ drop (CARRYING + WorldObj.dim) row)) (base self)) ;;;
  modify (alter (update_carried self None) (base self)).

End AgentState.

(** ** [Agent] *)

Module Agent.

(** The attributes of an [Agent] that the modelled methods read.  [state]
    is a reference to an [AgentState] view, shared with whoever built it. *)
Record t : Type := {
  index : Z;
  state : AgentState;
  view_size : Z;
  see_through_walls : bool
}.

(** [__init__], lines 239-284 (the gym spaces are left out). *)
Definition init (index : Z) (state : option AgentState) (view_size : Z)
    (see_through_walls : bool) : M Store t :=
  s <- match state with
       | None => AgentState.new []
       | Some s => ret s
       end ;;
  assert_ (view_size mod 2 =? 1) ;;;
  assert_ (3 <=? view_size) ;;;
  ret {| index := index; state := s; view_size := view_size;
         see_through_walls := see_through_walls |}.

(** Modelled from the spec: [utils.misc.front_pos(x, y, dir)], the cell in
    front of (x, y): position plus the unit vector of the direction
    (section 4.4); it is undefined for an integer that is no direction. *)
Definition front_pos_fn (x y d : Z) : option (Z * Z) :=
  match Direction.of_index d with
  | Some dd => Some (x + (Direction.to_vec dd).1, y + (Direction.to_vec dd).2)
  | None => None
  end.

(** [front_pos], lines 286-293.  [self.state._view[DIR]] indexes the first
    axis, so the property is meaningful for a scalar state only. *)
Definition front_pos (self : t) : M Store (Z * Z) :=
  match dims (state self) with
  | [] =>
      agent_dir <- gets (fun st => default 0 (AgentState.column st (state self) DIR !! 0%nat)) ;;
      x <- gets (fun st => default 0 (AgentState.column st (state self) POS !! 0%nat)) ;;
      y <- gets (fun st => default 0 (AgentState.column st (state self) (S POS) !! 0%nat)) ;;
      match front_pos_fn x y agent_dir with
      | Some p => ret p
      | None => raise ValueError
      end
  | _ => raise TypeError
  end.

(** [reset], lines 295-308 (the mission is not modelled). *)
Definition reset (self : t) : M Store unit :=
  AgentState.set_pos (state self) (-1, -1) ;;;
  AgentState.set_dir (state self) (-1) ;;;
  AgentState.set_terminated (state self) false ;;;
  AgentState.set_carrying_None (state self).

(** [encode], lines 310-323, for an agent with a scalar state. *)
Definition encode (self : t) : M Store (Z * Z * Z) :=
  c <- AgentState.color (state self) ;;
  d <- AgentState.dir (state self) ;;
  match c, d with
  | AgentState.Scalar c, AgentState.DirScalar d =>
      ret (Type_.to_index Type_.agent, Color.to_index c, Direction.to_index d)
  | _, _ => raise AttributeError
  end.

End Agent.

(** ** [WorldObjState]: the grid's array of Cell Records *)

Module WorldObjState.

(** An array of shape [shape + (WorldObj.dim,)], read by coordinates.
    Only coordinates inside [shape] are ever read or written. *)
Record t : Type := {
  shape : Z * Z;
  cells : Z -> Z -> WorldObj.record
}.

(** Modelled from the spec: [WorldObjState(width, height)], every record
    of a new container is the empty record (section 4.1). *)
Definition new (width height : Z) : t :=
  {| shape := (width, height); cells := fun _ _ => WorldObj.empty |}.

(** [self[i, j] = r]: the record is copied into the array. *)
Definition setitem (s : t) (i j : Z) (r : WorldObj.record) : t :=
  {| shape := shape s;
     cells := fun a b => if (a =? i) && (b =? j) then r else cells s a b |}.

(** Modelled from the spec: [WorldObjState.encode()], the tensor of
    (type_index, color_index, aux) triples, one per cell (section 4.2). *)
Definition encode (s : t) : Z -> Z -> Z * Z * Z :=
  fun i j => WorldObj.encode (cells s i j).

(** [np.array_equal(a, b)]: same shape and the same entry everywhere. *)
Definition array_equal (a b : t) : bool :=
  bool_decide (shape a = shape b)
  && forallb (fun i => forallb (fun j =>
       bool_decide (cells a i j = cells b i j)) (range (shape a).2)) (range (shape a).1).

End WorldObjState.

(** ** [Grid] *)

Module Grid.

(** What [Grid.set] can be handed and [world_objects] can hold: [None], a
    [WorldObj] handle (a reference to a Python object), an [Agent], or any
    other object. *)
Inductive value : Type :=
| VNone
| VObj (o : nat)
| VAgent (a : Agent.t)
| VOther.

(** The [state] attribute of a [WorldObj] handle: an array of its own, or
    the view [grid.state[i, j]] into the grid's storage. *)
Inductive state_ref : Type :=
| Owned (r : WorldObj.record)
| View (i j : Z).

(** A grid together with the [WorldObj] handles that can reach it: the
    dictionary [world_objects], the array [state], and for every handle the
    current value of its [state] attribute ([next_obj] is the next unused
    handle). *)
Record t : Type := {
  world_objects : gmap (Z * Z) value;
  state : WorldObjState.t;
  obj_state : nat -> state_ref;
  next_obj : nat
}.

Definition with_world_objects (f : gmap (Z * Z) value -> gmap (Z * Z) value) (g : t) : t :=
  {| world_objects := f (world_objects g); state := state g;
     obj_state := obj_state g; next_obj := next_obj g |}.

Definition with_state (f : WorldObjState.t -> WorldObjState.t) (g : t) : t :=
  {| world_objects := world_objects g; state := f (state g);
     obj_state := obj_state g; next_obj := next_obj g |}.

(** [o.state = ref] *)
Definition set_obj_state (o : nat) (ref : state_ref) (g : t) : t :=
  {| world_objects := world_objects g; state := state g;
     obj_state := fun k => if (k =? o)%nat then ref else obj_state g k;
     next_obj := next_obj g |}.

(** [__init__], lines 25-37. *)
Definition init (width height : Z) : exn + t :=
  if negb (3 <=? width) then inl AssertionError
  else if negb (3 <=? height) then inl AssertionError
  else inr {| world_objects := ∅;
              state := WorldObjState.new width height;
              obj_state := fun _ => Owned WorldObj.empty;
              next_obj := 0 |}.

(** [from_grid_state], lines 39-48 (the array is three-dimensional by
    its type). *)
Definition from_grid_state (grid_state : WorldObjState.t) : t :=
  {| world_objects := ∅; state := grid_state;
     obj_state := fun _ => Owned WorldObj.empty; next_obj := 0 |}.

(** [width] and [height], lines 50-62. *)
Definition width (g : t) : Z := (WorldObjState.shape (state g)).1.
Definition height (g : t) : Z := (WorldObjState.shape (state g)).2.

(** The record a [state] reference denotes at this moment. *)
Definition deref (g : t) (ref : state_ref) : WorldObj.record :=
  match ref with
  | Owned r => r
  | View i j => WorldObjState.cells (state g) i j
  end.

(** The contents of [o.state]. *)
Definition obj_record (g : t) (o : nat) : WorldObj.record := deref g (obj_state g o).

(** [o.encode()] *)
Definition obj_encode (g : t) (o : nat) : Z * Z * Z := WorldObj.encode (obj_record g o).

(** Modelled from the spec: building a [WorldObj] (for instance [Ball()],
    or what [WorldObj.decode] builds): a new handle whose [state] is an
    array of its own holding the given record. *)
Definition new_obj (r : WorldObj.record) : M t nat :=
  o <- gets next_obj ;;
  modify (fun g => {| world_objects := world_objects g; state := state g;
                      obj_state := fun k => if (k =? o)%nat then Owned r else obj_state g k;
                      next_obj := S o |}) ;;;
  ret o.

(** [o.state[...] = r]: an in-place write through the handle.  It lands
    in the grid when [o.state] is a view of it. *)
Definition write_obj (o : nat) (r : WorldObj.record) : M t unit :=
  ref <- gets (fun g => obj_state g o) ;;
  match ref with
  | Owned _ => modify (set_obj_state o (Owned r))
  | View i j => modify (with_state (fun s => WorldObjState.setitem s i j r))
  end.

(** [set], lines 101-123. *)
Definition set (i j : Z) (v : value) : M t unit :=
  w <- gets width ;;
  assert_ ((0 <=? i) && (i <? w)) ;;;
  h <- gets height ;;
  assert_ ((0 <=? j) && (j <? h)) ;;;
  (* Update world objects *)
  prev_obj <- gets (fun g => default VNone (world_objects g !! (i, j))) ;;
  modify (with_world_objects (delete (i, j))) ;;;
  modify (with_world_objects <[(i, j) := v]>) ;;;
  match prev_obj with
  | VObj p =>
      (* prev_obj.state = prev_obj.state.copy() *)
      r <- gets (fun g => obj_record g p) ;;
      modify (set_obj_state p (Owned r))
  | _ => ret tt
  end ;;;
  (* Update grid *)
  match v with
  | VNone =>
      modify (with_state (fun s => WorldObjState.setitem s i j WorldObj.empty))
  | VObj o =>
      r <- gets (fun g => obj_record g o) ;;
      modify (with_state (fun s => WorldObjState.setitem s i j r)) ;;;
      modify (set_obj_state o (View i j))
  | VAgent a =>
      (* v.world_state(): class Agent (agent.py, lines 193-343) defines no
         attribute of that name *)
      raise AttributeError
  | VOther => raise TypeError
  end.

(** Modelled from the spec: [WorldObj.from_state(state)], the handle
    materialised from a record: [None] when the type is empty, otherwise a
    new handle whose [state] is the array it was given, here a view of the
    grid (sections 3 and 4.2). *)
Definition from_state (ref : state_ref) : M t value :=
  r <- gets (fun g => deref g ref) ;;
  if WorldObj.type_idx r =? Type_.to_index Type_.empty then ret VNone
  else
    o <- gets next_obj ;;
    modify (fun g => {| world_objects := world_objects g; state := state g;
                        obj_state := fun k => if (k =? o)%nat then ref else obj_state g k;
                        next_obj := S o |}) ;;;
    ret (VObj o).

(** [get], lines 126-135. *)
Definition get (i j : Z) : M t value :=
  w <- gets width ;;
  assert_ ((0 <=? i) && (i <? w)) ;;;
  h <- gets height ;;
  assert_ ((0 <=? j) && (j <? h)) ;;;
  cached <- gets (fun g => world_objects g !! (i, j)) ;;
  match cached with
  | None =>
      v <- from_state (View i j) ;;
      modify (with_world_objects <[(i, j) := v]>)
  | Some _ => ret tt
  end ;;;
  gets (fun g => default VNone (world_objects g !! (i, j))).

(** [grid], lines 64-69: the values of all cells, [i] outermost.
    [self.height] is read again for every [i]. *)
Definition grid : M t (list value) :=
  w <- gets width ;;
  cols <- for_list (range w) (fun i =>
            h <- gets height ;;
            for_list (range h) (fun j => get i j)) ;;
  ret (concat cols).

(** The positions the slice [start:stop] selects on an axis of length
    [n], as Python's [slice.indices] computes them. *)
Definition slice_indices (start stop n : Z) : list Z :=
  let norm k := if k <? 0 then Z.max (k + n) 0 else Z.min k n in
  map (fun k => norm start + k) (range (norm stop - norm start)).

(** numpy's handling of an integer index on an axis of length [n]. *)
Definition axis_index (k n : Z) : option Z :=
  if (0 <=? k) && (k <? n) then Some k
  else if (- n <=? k) && (k <? 0) then Some (k + n)
  else None.

(** [horz_wall], lines 137-146.  [obj_type] is the record of the object
    that [obj_type()] builds (by default a [Wall]). *)
Definition horz_wall (x y : Z) (length : option Z) (obj_type : WorldObj.record) : M t unit :=
  w <- gets width ;;
  h <- gets height ;;
  let length := match length with None => w - x | Some l => l end in
  match axis_index y h with
  | Some y' =>
      for_each (slice_indices x (x + length) w) (fun a =>
        modify (with_state (fun s => WorldObjState.setitem s a y' obj_type)))
  | None => raise IndexError
  end.

(** [vert_wall], lines 148-157. *)
Definition vert_wall (x y : Z) (length : option Z) (obj_type : WorldObj.record) : M t unit :=
  w <- gets width ;;
  h <- gets height ;;
  let length := match length with None => h - y | Some l => l end in
  match axis_index x w with
  | Some x' =>
      for_each (slice_indices y (y + length) h) (fun b =>
        modify (with_state (fun s => WorldObjState.setitem s x' b obj_type)))
  | None => raise IndexError
  end.

(** [wall_rect], lines 159-166; [Wall] is the record of [Wall()]. *)
Definition wall_rect (Wall : WorldObj.record) (x y w h : Z) : M t unit :=
  horz_wall x y (Some w) Wall ;;;
  horz_wall x (y + h - 1) (Some w) Wall ;;;
  vert_wall x y (Some h) Wall ;;;
  vert_wall (x + w - 1) y (Some h) Wall.

(** An integer tensor of shape [enc_shape + (3,)]. *)
Record encoding : Type := {
  enc_shape : Z * Z;
  enc : Z -> Z -> Z * Z * Z
}.

(** [encode], lines 252-261. *)
Definition encode (vis_mask : option (Z -> Z -> bool)) (g : t) : encoding :=
  let vis_mask := match vis_mask with
                  | None => fun _ _ => true     (* np.ones(...) *)
                  | Some m => m
                  end in
  {| enc_shape := (width g, height g);
     enc := fun i j => if vis_mask i j then WorldObjState.encode (state g) i j
                       else (0, 0, 0) |}.

(** Modelled from the spec: [WorldObj.decode(type_idx, color_idx, state)],
    [None] for the empty and the unseen type, otherwise a new object with
    that record (section 4.2). *)
Definition WorldObj_decode (type_idx color_idx state : Z) : M t value :=
  if (type_idx =? Type_.to_index Type_.empty) || (type_idx =? Type_.to_index Type_.unseen)
  then ret VNone
  else o <- new_obj (WorldObj.Rec type_idx color_idx state) ;; ret (VObj o).

(** [decode], lines 263-280.  The mask is returned as the function the
    loop tabulates. *)
Definition decode (array : encoding) : exn + (t * (Z -> Z -> bool)) :=
  let width := (enc_shape array).1 in
  let height := (enc_shape array).2 in
  match init width height with
  | inl e => inl e
  | inr grid =>
      let loop :=
        for_each (range width) (fun i =>
          for_each (range height) (fun j =>
            let '(type_idx, color_idx, state) := enc array i j in
            v <- WorldObj_decode type_idx color_idx state ;;
            set i j v)) in
      match loop grid with
      | (inl e, _) => inl e
      | (inr _, grid') =>
          inr (grid', fun i j => negb ((enc array i j).1.1 =? Type_.to_index Type_.unseen))
      end
  end.

(** [__eq__], lines 88-89. *)
Definition eq (self other : t) : bool := WorldObjState.array_equal (state self) (state other).

Section Contains.

(** A plain numpy array handed to [in], and numpy's own
    [np.may_share_memory] on it. *)
Variable ndarray : Type.
Variable may_share_memory : ndarray -> WorldObjState.t -> bool.

(** The keys [__contains__] distinguishes. *)
Inductive key : Type :=
| KWorldObj (o : nat)
| KNdarray (a : ndarray)
| KTuple (color : option Color.t) (type : Type_.t)
| KOther.

(** The loop of lines 77-85 over the remaining coordinates. *)
Fixpoint contains_tuple (color : option Color.t) (type : Type_.t) (coords : list (Z * Z)) : M t bool :=
  match coords with
  | [] => ret false
  | (i, j) :: rest =>
      e <- get i j ;;
      match e with
      | VNone => contains_tuple color type rest
      | VObj o =>
          r <- gets (fun g => obj_record g o) ;;
          if bool_decide (Some (WorldObj.color_idx r) = Color.to_index <$> color)
             && (WorldObj.type_idx r =? Type_.to_index type)
          then ret true
          else if bool_decide (color = None) && (WorldObj.type_idx r =? Type_.to_index type)
          then ret true
          else contains_tuple color type rest
      | _ => raise AttributeError     (* e.type *)
      end
  end.

(** [__contains__], lines 71-86. *)
Definition contains (k : key) : M t bool :=
  match k with
  | KWorldObj o =>
      vs <- gets (fun g => (map_to_list (world_objects g)).*2) ;;
      ret (existsb (fun v => match v with VObj o' => (o' =? o)%nat | _ => false end) vs)
  | KNdarray a =>
      (* the result of the call is dropped *)
      _ <- gets (fun g => may_share_memory a (state g)) ;;
      ret false
  | KTuple color type =>
      w <- gets width ;;
      h <- gets height ;;
      contains_tuple color type (i ← range w; j ← range h; [(i, j)])
  | KOther => ret false
  end.

End Contains.

End Grid.

(** ** [Grid.render_tile] and the class-level [tile_cache] *)

Module Render.

(** One RGB pixel and an image of shape (rows, columns, 3). *)
Definition pixel : Type := Z * Z * Z.
Definition image : Type := list (list pixel).

(** [np.zeros(shape=(h, w, 3), dtype=np.uint8)]; numpy refuses a
    negative dimension with ValueError. *)
Definition zeros (h w : Z) : exn + image :=
  if (h <? 0) || (w <? 0) then inl ValueError
  else inr (replicate (Z.to_nat h) (replicate (Z.to_nat w) (0, 0, 0))).

(** The drawing primitives of [utils.rendering], which the core treats as
    black boxes (section 6 of the spec).  [fill_coords] and
    [highlight_img] work in place, so the image keeps its number of rows;
    [downsample] may fail, and is only known to return, with the number
    of rows divided by the factor, when the factor is positive and
    divides the number of rows. *)
Class Rasterizer : Type := {
  region : Type;
  point_in_rect : Q -> Q -> Q -> Q -> region;
  fill_coords : image -> region -> pixel -> image;
  highlight_img : image -> image;
  downsample : image -> Z -> exn + image;
  fill_coords_rows : forall img fn c, length (fill_coords img fn c) = length img;
  highlight_img_rows : forall img, length (highlight_img img) = length img;
  downsample_rows : forall img f,
    0 < f -> Z.of_nat (length img) mod f = 0 ->
    exists out, downsample img f = inr out
                /\ length out = Z.to_nat (Z.of_nat (length img) / f)
}.

(** What [render_tile] uses of a [WorldObj]: its [encode()] and its
    [render(img)], which draws in place. *)
Record world_obj : Type := {
  wo_encode : Z * Z * Z;
  wo_render : image -> image;
  wo_render_rows : forall img, length (wo_render img) = length img
}.

(** A cache key: [obj.encode() + (highlight, tile_size)] for an object
    and [(highlight, tile_size)] for [None]; the two have different
    lengths, which the option keeps apart. *)
Definition cache_key : Type := option (Z * Z * Z) * bool * Z.

Definition key_of (obj : option world_obj) (highlight : bool) (tile_size : Z) : cache_key :=
  (wo_encode <$> obj, highlight, tile_size).

Section RenderTile.

Context {R : Rasterizer}.

(** The image before it is downsampled, lines 185-198. *)
Definition paint_tile (obj : option world_obj) (highlight : bool) (img : image) : image :=
  (* Draw the grid lines (top and left edges) *)
  let img := fill_coords img (point_in_rect 0 (31 # 1000) 0 1) (100, 100, 100) in
  let img := fill_coords img (point_in_rect 0 1 0 (31 # 1000)) (100, 100, 100) in
  let img := match obj with
             | Some o => wo_render o img
             | None => img
             end in
  (* Highlight the cell if needed *)
  if highlight then highlight_img img else img.

(** The image lines 185-201 compute on a cache miss. *)
Definition draw_tile (obj : option world_obj) (highlight : bool) (tile_size subdivs : Z)
    : exn + image :=
  match zeros (tile_size * subdivs) (tile_size * subdivs) with
  | inl e => inl e
  | inr img =>
      (* Downsample the image to perform supersampling/anti-aliasing *)
      downsample (paint_tile obj highlight img) subdivs
  end.

(** [render_tile], lines 168-206, with [cls.tile_cache] threaded through:
    a call that raises has not reached the line that fills the cache. *)
Definition render_tile (obj : option world_obj) (highlight : bool) (tile_size subdivs : Z)
    : M (gmap cache_key image) image :=
  fun tile_cache =>
    let key := key_of obj highlight tile_size in
    match tile_cache !! key with
    | Some img => (inr img, tile_cache)
    | None =>
        match draw_tile obj highlight tile_size subdivs with
        | inr img => (inr img, <[key := img]> tile_cache)
        | inl e => (inl e, tile_cache)
        end
    end.

End RenderTile.

End Render.

(** ** Definitions used in the statements below *)

Import Grid.
Import Render.

(** Unfolds the monad's operations. *)
Ltac run := unfold bind, gets, modify, assert_, ret, raise in *; simpl in *.

(** The handles' states once the handle cached at a cell, if any, has been detached. *)
Definition detached (g : Grid.t) (i j : Z) : nat -> state_ref :=
  match default VNone (world_objects g !! (i, j)) with
  | VObj p => fun k => if (k =? p)%nat then Owned (obj_record g p) else obj_state g k
  | _ => obj_state g
  end.

(** Every handle whose [state] is a view of a cell is the handle cached at that cell. *)
Definition views_cached (g : Grid.t) : Prop :=
  forall o x y, obj_state g o = View x y -> world_objects g !! (x, y) = Some (VObj o).

(** The agent that [Agent(0)] builds in an empty store: its state is the
    scalar record at the start of the first buffer. *)
Definition example_agent : Agent.t :=
  {| Agent.index := 0;
     Agent.state := {| base := 0; offset := 0; dims := [] |};
     Agent.view_size := 7;
     Agent.see_through_walls := false |}.

(** An empty 3 x 3 grid. *)
Definition grid3 : Grid.t := from_grid_state (WorldObjState.new 3 3).

(** Two ball records that differ in colour. *)
Definition red_ball : WorldObj.record :=
  WorldObj.Rec (Type_.to_index Type_.ball) (Color.to_index Color.red) 0.
Definition yellow_ball : WorldObj.record :=
  WorldObj.Rec (Type_.to_index Type_.ball) (Color.to_index Color.yellow) 0.


(** The object kinds [Grid.decode] rebuilds as objects. *)
Definition encodable_kind (k : Type_.t) : bool :=
  match k with
  | Type_.wall | Type_.floor | Type_.door | Type_.key
  | Type_.ball | Type_.box | Type_.goal | Type_.lava => true
  | _ => false
  end.

(** A cell that is empty or holds an object of an encodable kind. *)
Definition encodable_cell (r : WorldObj.record) : Prop :=
  r = WorldObj.empty
  \/ exists k, encodable_kind k = true /\ WorldObj.type_idx r = Type_.to_index k.

(** A grid built only from encodable object kinds. *)
Definition encodable (g : Grid.t) : Prop :=
  forall i j, 0 <= i < width g -> 0 <= j < height g ->
    encodable_cell (WorldObjState.cells (state g) i j).

(** A view is valid in a store when its window lies inside its buffer and
    every record of the buffer has the width of an agent record. *)
Definition valid (st : Store) (s : AgentState) : Prop :=
  exists b, st !! base s = Some b
    /\ (offset s + AgentState.size (dims s) <= length (rows b))%nat
    /\ (forall n row, rows b !! n = Some row -> length row = AgentState.dim).

(** The record [AgentState.__new__] leaves at flat index [k]. *)
Definition default_row (k : nat) : list Z :=
  [Type_.to_index Type_.agent; Z.of_nat k mod Color.len; -1; -1; -1; 0; 0; 0; 0].

(** The default colour of the record at flat index [k]. *)
Definition color_cycle (k : nat) : Color.t :=
  default Color.red (Color.from_index (Z.of_nat k mod Color.len)).

(** The scenario of the docstring: three agents, the second one painted yellow. *)
Definition three_agents : M Store (AgentState.field Color.t) :=
  agent_state <- AgentState.new [3%nat] ;;
  a <- AgentState.getitem agent_state 1 ;;
  match a with
  | AgentState.ItemState a => AgentState.set_color a "yellow"
  | AgentState.ItemInt _ => raise TypeError
  end ;;;
  AgentState.color agent_state.

(** The agent of the scenario: red, facing right, at (3, 3). *)
Definition placed_agent : M Store Agent.t :=
  a <- Agent.init 0 None 7 false ;;
  AgentState.set_color (Agent.state a) "red" ;;;
  AgentState.set_dir (Agent.state a) (Direction.to_index Direction.right) ;;;
  AgentState.set_pos (Agent.state a) (3, 3) ;;;
  ret a.

(** [Grid(8, 8)]; [wall_rect(0, 0, 8, 8)]; [set(3, 3, agent)]. *)
Definition walled_room (Wall : WorldObj.record) (a : Agent.t) : exn + (exn + unit) * Grid.t :=
  match Grid.init 8 8 with
  | inl e => inl e
  | inr g => inr ((wall_rect Wall 0 0 8 8 ;;; set 3 3 (VAgent a)) g)
  end.

(** Modelled from the spec: [point_in_rect(xmin, xmax, ymin, ymax)], the
    region predicate of a rectangle (section 6).  It opens one instance of
    the rasterization interface: [fill] colours the pixels whose centre
    satisfies the predicate, the highlight lays a white overlay over every
    pixel, [downsample] replaces each factor x factor block by its mean. *)
Definition in_rect (xmin xmax ymin ymax : Q) : Q -> Q -> bool :=
  fun x y => Qle_bool xmin x && Qle_bool x xmax && Qle_bool ymin y && Qle_bool y ymax.

(** Modelled from the spec: the centre of pixel [k] of [n], in [0, 1]. *)
Definition centre (k n : nat) : Q := Qmake (2 * Z.of_nat k + 1) (Pos.of_nat (2 * n)).

(** Modelled from the spec: [fill(pixel_buffer, region_predicate, color)]
    (section 6). *)
Definition fill (img : image) (fn : Q -> Q -> bool) (c : pixel) : image :=
  imap (fun y row =>
          imap (fun x px => if fn (centre x (length row)) (centre y (length img)) then c else px) row)
       img.

(** Modelled from the spec: the highlight overlay on one pixel (section 6);
    the spec fixes no formula, this one blends towards white. *)
Definition overlay (p : pixel) : pixel :=
  let f c := c + (255 - c) * 3 / 10 in (f p.1.1, f p.1.2, f p.2).

(** Modelled from the spec: the area average of one block (section 4.3). *)
Definition block_mean (img : image) (f Y X : nat) : pixel :=
  let px := concat (map (fun row => take f (drop (X * f) row)) (take f (drop (Y * f) img))) in
  let total ch := foldr Z.add 0 (map ch px) in
  let n := Z.of_nat (f * f) in
  (total (fun p => p.1.1) / n, total (fun p => p.1.2) / n, total (fun p => p.2) / n).

(** Modelled from the spec: [downsample(buffer, factor)] (section 6) for
    a positive factor. *)
Definition block_means (img : image) (f : Z) : image :=
  let out_rows := Z.to_nat (Z.of_nat (length img) / f) in
  let out_cols := Z.to_nat (Z.of_nat (length (default [] (head img))) / f) in
  map (fun Y => map (fun X => block_mean img (Z.to_nat f) Y X) (seq 0 out_cols)) (seq 0 out_rows).

(** Modelled from the spec: [downsample(buffer, factor)]; the spec says
    nothing of a factor that is not positive, which is refused here. *)
Definition block_means_checked (img : image) (f : Z) : exn + image :=
  if 0 <? f then inr (block_means img f) else inl ValueError.

Definition block_means_checked_rows (img : image) (f : Z) (Hf : 0 < f)
    (Hdiv : Z.of_nat (length img) mod f = 0) :
  exists out, block_means_checked img f = inr out
              /\ length out = Z.to_nat (Z.of_nat (length img) / f) :=
  ex_intro _ (block_means img f)
    (conj (f_equal (fun b : bool => if b then inr (block_means img f) else inl ValueError)
             (proj2 (Z.ltb_lt 0 f) Hf))
          (eq_trans (length_map _ _) (length_seq _ _))).

(** Modelled from the spec: the primitives above as a [Rasterizer]. *)
#[local] Instance spec_rasterizer : Rasterizer := {|
  region := Q -> Q -> bool;
  point_in_rect := in_rect;
  fill_coords := fill;
  highlight_img := map (map overlay);
  downsample := block_means_checked;
  fill_coords_rows := fun img fn c => length_imap _ img;
  highlight_img_rows := fun img => length_map _ img;
  downsample_rows := block_means_checked_rows
|}.

(** Channel [k] of a pixel: red, green, blue. *)
Definition channel (k : nat) (p : pixel) : Z :=
  match k with
  | O => p.1.1
  | S O => p.1.2
  | _ => p.2
  end.

(** A square image of side [n] whose channel [k] is nowhere above 251,
    so that the overlay raises it at every pixel. *)
Definition dim_image (k n : nat) (img : image) : Prop :=
  length img = n
  /\ Forall (fun row => length row = n /\ Forall (fun p => channel k p <= 251) row) img.

(** An object whose drawing keeps such images so ([None] draws nothing). *)
Definition dim_object (k : nat) (obj : option world_obj) : Prop :=
  match obj with
  | None => True
  | Some o => forall n img, dim_image k n img -> dim_image k n (wo_render o img)
  end.


(** A 3 x 3 grid with a red ball in the middle. *)
Definition ball_grid : Grid.t :=
  ((o <- new_obj red_ball ;; set 1 1 (VObj o)) grid3).2.

(** [AgentState(3)] built in an empty store. *)
Definition batch3 : AgentState := {| base := 0; offset := 0; dims := [3%nat] |}.
Definition store3 : Store := (AgentState.new [3%nat] []).2.

(** The parts of a grid that writing into [state] leaves alone. *)
Definition same_cache (g g' : Grid.t) : Prop :=
  world_objects g' = world_objects g
  /\ obj_state g' = obj_state g
  /\ next_obj g' = next_obj g
  /\ WorldObjState.shape (state g') = WorldObjState.shape (state g).

(** Where the slice [x : x + length] ends on an axis of length [n]
    ([length] is [None] when the wall runs to the edge). *)
Definition wall_stop (x : Z) (length : option Z) (n : Z) : Z :=
  match length with
  | Some l => Z.min (x + l) n
  | None => n
  end.

(** The border of the rectangle with corner (x, y), width w and height h. *)
Definition on_border (x y w h a b : Z) : bool :=
  (x <=? a) && (a <? x + w) && (y <=? b) && (b <? y + h)
  && ((a =? x) || (a =? x + w - 1) || (b =? y) || (b =? y + h - 1)).

Ltac bool_cases :=
  repeat match goal with
         | |- context [?a =? ?b] => destruct (Z.eqb_spec a b)
         | |- context [?a <=? ?b] => destruct (Z.leb_spec a b)
         | |- context [?a <? ?b] => destruct (Z.ltb_spec a b)
         end.

(** A grid whose cell (0, 0) has been asked for, and so is cached as [None]. *)
Definition asked_grid : Grid.t := (get 0 0 grid3).2.

(** The record [Grid.decode] writes for one triple of the array. *)
Definition decoded_record (e : Z * Z * Z) : WorldObj.record :=
  if (e.1.1 =? Type_.to_index Type_.empty) || (e.1.1 =? Type_.to_index Type_.unseen)
  then WorldObj.empty
  else WorldObj.Rec e.1.1 e.1.2 e.2.

(** The store after the first statement of the [carrying] setter for
    [None]: the three carried columns of the view hold [WorldObj.empty()]. *)
Definition carrying_rows (s : AgentState) (st : Store) : Store :=
  alter (AgentState.update_rows s (fun _ row =>
           take CARRYING row ++ WorldObj.to_row WorldObj.empty
             ++ drop (CARRYING + WorldObj.dim) row)) (base s) st.

(** The cache only grows, and [state] stays as it is: what [get] may do
    to a grid. *)
Definition cache_grows (g g' : Grid.t) : Prop :=
  state g' = state g
  /\ (forall x y v, world_objects g !! (x, y) = Some v -> world_objects g' !! (x, y) = Some v)
  /\ (views_cached g -> views_cached g').




(** The move idiom: a ball placed at (0, 0), set at (1, 1), and (0, 0)
    cleared. *)
Definition moved : M Grid.t nat :=
  o <- new_obj red_ball ;;
  set 0 0 (VObj o) ;;;
  set 1 1 (VObj o) ;;;
  set 0 0 VNone ;;;
  ret o.

(** * Properties *)

Lemma in_bounds_true (a n : Z) : 0 <= a < n -> (0 <=? a) && (a <? n) = true.
Proof. intros. apply andb_true_intro. split; [apply Z.leb_le | apply Z.ltb_lt]; lia. Qed.

Lemma deref_detached g i j k :
  deref g (detached g i j k) = obj_record g k.
Proof.
  unfold detached. destruct (default VNone (world_objects g !! (i, j))); try reflexivity.
  destruct (Nat.eqb_spec k o) as [->|]; reflexivity.
Qed.

Lemma set_VObj g i j o :
  0 <= i < width g -> 0 <= j < height g ->
  set i j (VObj o) g =
    (inr tt,
     {| world_objects := <[(i, j) := VObj o]> (delete (i, j) (world_objects g));
        state := WorldObjState.setitem (state g) i j (obj_record g o);
        obj_state := fun k => if (k =? o)%nat then View i j else detached g i j k;
        next_obj := next_obj g |}).
Proof.
  intros Hi Hj. unfold set. run.
  rewrite (in_bounds_true _ _ Hi). simpl. rewrite (in_bounds_true _ _ Hj). simpl.
  unfold detached.
  destruct (default VNone (world_objects g !! (i, j))) eqn:Hp; simpl;
    unfold obj_record; simpl; try reflexivity.
  destruct (Nat.eqb_spec o o0) as [->|]; reflexivity.
Qed.

Lemma set_VNone g i j :
  0 <= i < width g -> 0 <= j < height g ->
  set i j VNone g =
    (inr tt,
     {| world_objects := <[(i, j) := VNone]> (delete (i, j) (world_objects g));
        state := WorldObjState.setitem (state g) i j WorldObj.empty;
        obj_state := detached g i j;
        next_obj := next_obj g |}).
Proof.
  intros Hi Hj. unfold set. run.
  rewrite (in_bounds_true _ _ Hi). simpl. rewrite (in_bounds_true _ _ Hj). simpl.
  unfold detached.
  destruct (default VNone (world_objects g !! (i, j))) eqn:Hp; simpl; reflexivity.
Qed.

Lemma set_VAgent g i j a :
  0 <= i < width g -> 0 <= j < height g ->
  set i j (VAgent a) g =
    (inl AttributeError,
     {| world_objects := <[(i, j) := VAgent a]> (delete (i, j) (world_objects g));
        state := state g;
        obj_state := detached g i j;
        next_obj := next_obj g |}).
Proof.
  intros Hi Hj. unfold set. run.
  rewrite (in_bounds_true _ _ Hi). simpl. rewrite (in_bounds_true _ _ Hj). simpl.
  unfold detached.
  destruct (default VNone (world_objects g !! (i, j))) eqn:Hp; simpl; reflexivity.
Qed.

Lemma get_cached g i j v :
  0 <= i < width g -> 0 <= j < height g ->
  world_objects g !! (i, j) = Some v ->
  get i j g = (inr v, g).
Proof.
  intros Hi Hj Hc. unfold get. run.
  rewrite (in_bounds_true _ _ Hi). simpl. rewrite (in_bounds_true _ _ Hj). simpl.
  rewrite Hc. simpl. rewrite Hc. reflexivity.
Qed.

(** C2: for in-bounds (i, j) and any WorldObj handle o, [set(i, j, o)]
    succeeds and the following [get(i, j)] returns that same handle,
    leaving the grid as it is; the handle's record, and so its [encode()],
    are what they were before the [set]. *)
Theorem get_after_set_same_handle g i j o :
  0 <= i < width g -> 0 <= j < height g ->
  exists g',
    set i j (VObj o) g = (inr tt, g')
    /\ get i j g' = (inr (VObj o), g')
    /\ obj_record g' o = obj_record g o
    /\ obj_encode g' o = obj_encode g o.
Proof.
  intros Hi Hj. eexists. split; [apply set_VObj; assumption|]. split.
  - apply get_cached; try assumption. simpl. apply lookup_insert_eq.
  - match goal with |- obj_record ?g' o = _ /\ _ =>
      assert (Hr : obj_record g' o = obj_record g o) end.
    { unfold obj_record at 1. simpl. rewrite Nat.eqb_refl. simpl.
      rewrite !Z.eqb_refl. reflexivity. }
    split; [exact Hr|]. unfold obj_encode. rewrite Hr. reflexivity.
Qed.

Lemma get_after_set_same_handle_witness :
  exists g',
    set 1 1 (VObj 0) grid3 = (inr tt, g')
    /\ get 1 1 g' = (inr (VObj 0), g')
    /\ obj_record g' 0%nat = obj_record grid3 0%nat
    /\ obj_encode g' 0%nat = obj_encode grid3 0%nat.
Proof. apply (get_after_set_same_handle grid3 1 1 0%nat); change (0 <= 1 < 3); lia. Defined.

(** C8: whatever the grid and the value, [set(-1, 0, v)] and
    [set(width, 0, v)] fail on the bounds assertion (the OutOfBounds
    failure of the spec) and hand back the grid exactly as it was: state,
    object cache and handles. *)
Theorem set_out_of_bounds_unchanged (g : Grid.t) (v : Grid.value) :
  Grid.set (-1) 0 v g = (inl AssertionError, g)
  /\ Grid.set (Grid.width g) 0 v g = (inl AssertionError, g).
Proof.
  split; unfold Grid.set; run; [reflexivity|].
  rewrite Z.ltb_irrefl, andb_false_r. reflexivity.
Qed.

(** C10: for every numpy array key and every grid, [key in grid] is
    [False] and leaves the grid untouched, whatever [np.may_share_memory]
    answers: its result is dropped. *)
Theorem contains_ndarray_is_False (ndarray : Type) (msm : ndarray -> WorldObjState.t -> bool) (a : ndarray) (g : Grid.t) :
  Grid.contains ndarray msm (Grid.KNdarray ndarray a) g = (inr false, g).
Proof.
  unfold Grid.contains, bind, gets, ret.
  (* the value of [msm a (state g)] is bound and never used *)
  destruct (msm a (state g)); reflexivity.
Qed.

Lemma set_width g i j v : width (set i j v g).2 = width g /\ height (set i j v g).2 = height g.
Proof.
  unfold set. run.
  destruct ((0 <=? i) && (i <? width g)); simpl; [|auto].
  destruct ((0 <=? j) && (j <? height g)); simpl; [|auto].
  destruct (default VNone (world_objects g !! (i, j))); destruct v; simpl; auto.
Qed.

(** C5, amended: an in-bounds [set(i, j, v)] with an Agent or with [None]
    stores [v] itself in [world_objects] under (i, j), so the next
    [get(i, j)] is a cache hit that returns the original Agent (or [None])
    without decoding the cell; for [None] the call succeeds and the cell
    holds the empty record. *)
Theorem set_caches_agent_and_None g i j a :
  0 <= i < width g -> 0 <= j < height g ->
  (let r := set i j (VAgent a) g in
   world_objects r.2 !! (i, j) = Some (VAgent a)
   /\ get i j r.2 = (inr (VAgent a), r.2))
  /\
  (let r := set i j VNone g in
   r.1 = inr tt
   /\ world_objects r.2 !! (i, j) = Some VNone
   /\ WorldObjState.cells (state r.2) i j = WorldObj.empty
   /\ get i j r.2 = (inr VNone, r.2)).
Proof.
  intros Hi Hj. split.
  - rewrite set_VAgent by assumption. simpl. split; [apply lookup_insert_eq|].
    apply get_cached; try assumption. apply lookup_insert_eq.
  - rewrite set_VNone by assumption. simpl. repeat split.
    + apply lookup_insert_eq.
    + rewrite !Z.eqb_refl. reflexivity.
    + apply get_cached; try assumption. apply lookup_insert_eq.
Qed.

Lemma set_caches_agent_and_None_witness :
  (let r := set 1 1 (VAgent example_agent) grid3 in
   world_objects r.2 !! (1, 1) = Some (VAgent example_agent)
   /\ get 1 1 r.2 = (inr (VAgent example_agent), r.2))
  /\
  (let r := set 1 1 VNone grid3 in
   r.1 = inr tt
   /\ world_objects r.2 !! (1, 1) = Some VNone
   /\ WorldObjState.cells (state r.2) 1 1 = WorldObj.empty
   /\ get 1 1 r.2 = (inr VNone, r.2)).
Proof. apply (set_caches_agent_and_None grid3 1 1 example_agent); change (0 <= 1 < 3); lia. Defined.

(** C5 as stated fails: after [set(1, 1, agent)] on an empty 3 x 3 grid
    the cache has an entry for (1, 1), [get(1, 1)] returns the Agent, and
    after [set(1, 1, None)] the cache has an entry as well. *)
Lemma set_agent_is_cached :
  let g := (set 1 1 (VAgent example_agent) grid3).2 in
  world_objects g !! (1, 1) = Some (VAgent example_agent)
  /\ (get 1 1 g).1 = inr (VAgent example_agent)
  /\ world_objects (set 1 1 VNone grid3).2 !! (1, 1) = Some VNone.
Proof. vm_compute. auto. Qed.


Lemma detached_View g i j k x y :
  detached g i j k = View x y ->
  obj_state g k = View x y /\ world_objects g !! (i, j) <> Some (VObj k).
Proof.
  unfold detached. destruct (world_objects g !! (i, j)) as [[]|] eqn:Hc; simpl;
    intros H; try (split; [exact H | congruence]).
  destruct (Nat.eqb_spec k o) as [->|Hne]; [discriminate|].
  split; [exact H | congruence].
Qed.


(** X2: [Grid.set] keeps the invariant that every handle whose record is a
    view of a cell is the handle cached at that cell, whatever value it is
    given and whether or not it raises. *)
Lemma views_cached_set g i j v : views_cached g -> views_cached (set i j v g).2.
Proof.
  intros Hinv.
  destruct (decide (0 <= i < width g)) as [Hi|Hi].
  2:{ unfold set. run. replace ((0 <=? i) && (i <? width g)) with false; [exact Hinv|].
      symmetry. apply not_true_is_false. rewrite andb_true_iff, Z.leb_le, Z.ltb_lt. lia. }
  destruct (decide (0 <= j < height g)) as [Hj|Hj].
  2:{ unfold set. run. rewrite (in_bounds_true _ _ Hi). simpl.
      replace ((0 <=? j) && (j <? height g)) with false; [exact Hinv|].
      symmetry. apply not_true_is_false. rewrite andb_true_iff, Z.leb_le, Z.ltb_lt. lia. }
  assert (Hother : forall k x y, detached g i j k = View x y ->
            forall w, (<[(i, j) := w]> (delete (i, j) (world_objects g))) !! (x, y) = Some (VObj k)).
  { intros k x y Hk w. apply detached_View in Hk as [Hk Hne].
    apply Hinv in Hk. destruct (decide ((i, j) = (x, y))) as [E|E].
    - rewrite E in Hne. contradiction.
    - rewrite lookup_insert_ne, lookup_delete_ne by exact E. exact Hk. }
  destruct v as [|o|a|].
  - rewrite set_VNone by assumption. intros k x y Hk. simpl in *. eauto.
  - rewrite set_VObj by assumption. intros k x y Hk. simpl in *.
    destruct (Nat.eqb_spec k o) as [->|Hne].
    + injection Hk as <- <-. apply lookup_insert_eq.
    + eauto.
  - rewrite set_VAgent by assumption. intros k x y Hk. simpl in *. eauto.
  - unfold set. run. rewrite (in_bounds_true _ _ Hi). simpl. rewrite (in_bounds_true _ _ Hj). simpl.
    intros k x y Hk.
    assert (detached g i j k = View x y) as Hd.
    { unfold detached. destruct (default VNone (world_objects g !! (i, j))); exact Hk. }
    replace (world_objects _) with (<[(i, j) := VOther]> (delete (i, j) (world_objects g))).
    + eauto.
    + destruct (default VNone (world_objects g !! (i, j))); reflexivity.
Qed.

Lemma get_miss g i j :
  0 <= i < width g -> 0 <= j < height g ->
  world_objects g !! (i, j) = None ->
  WorldObj.type_idx (WorldObjState.cells (state g) i j) <> Type_.to_index Type_.empty ->
  get i j g =
    (inr (VObj (next_obj g)),
     {| world_objects := <[(i, j) := VObj (next_obj g)]> (world_objects g);
        state := state g;
        obj_state := fun k => if (k =? next_obj g)%nat then View i j else obj_state g k;
        next_obj := S (next_obj g) |}).
Proof.
  intros Hi Hj Hc Ht. unfold get, from_state. run.
  rewrite (in_bounds_true _ _ Hi). simpl. rewrite (in_bounds_true _ _ Hj). simpl.
  rewrite Hc. simpl.
  destruct (Z.eqb_spec (WorldObj.type_idx (WorldObjState.cells (state g) i j)) 1) as [E|E];
    [contradiction|].
  simpl. rewrite lookup_insert_eq. reflexivity.
Qed.



Lemma elem_of_range (n x : Z) : In x (range n) <-> 0 <= x < n.
Proof.
  unfold range. rewrite in_map_iff. split.
  - intros (k & <- & Hk). apply in_seq in Hk. lia.
  - intros H. exists (Z.to_nat x). split; [lia|]. apply in_seq. lia.
Qed.

Lemma for_each_seq_inv {St : Type} (I : Z -> St -> Prop) (body : Z -> M St unit) (m a : nat) (s : St) :
  I (Z.of_nat a) s ->
  (forall k s0, Z.of_nat a <= k < Z.of_nat (a + m) -> I k s0 ->
     exists s1, body k s0 = (inr tt, s1) /\ I (k + 1) s1) ->
  exists s', for_each (map Z.of_nat (seq a m)) body s = (inr tt, s') /\ I (Z.of_nat (a + m)) s'.
Proof.
  revert a s. induction m as [|m IH]; intros a s H0 Hstep.
  - exists s. rewrite Nat.add_0_r. split; [reflexivity | exact H0].
  - simpl. destruct (Hstep (Z.of_nat a) s) as (s1 & E1 & H1); [lia | exact H0 |].
    unfold bind. rewrite E1.
    destruct (IH (S a) s1) as (s' & E' & H').
    + replace (Z.of_nat (S a)) with (Z.of_nat a + 1) by lia. exact H1.
    + intros k s0 Hk. apply Hstep. lia.
    + exists s'. split; [exact E'|]. replace (a + S m)%nat with (S a + m)%nat by lia. exact H'.
Qed.

Lemma for_range_inv {St : Type} (I : Z -> St -> Prop) (body : Z -> M St unit) (n : Z) (s : St) :
  0 <= n ->
  I 0 s ->
  (forall k s0, 0 <= k < n -> I k s0 -> exists s1, body k s0 = (inr tt, s1) /\ I (k + 1) s1) ->
  exists s', for_each (range n) body s = (inr tt, s') /\ I n s'.
Proof.
  intros Hn H0 Hstep. unfold range.
  destruct (for_each_seq_inv I body (Z.to_nat n) 0 s) as (s' & E & H).
  - exact H0.
  - intros k s0 Hk. apply Hstep. lia.
  - exists s'. split; [exact E|]. replace (Z.of_nat (0 + Z.to_nat n)) with n in H by lia. exact H.
Qed.

Lemma decode_cell (G : Grid.t) (i j : Z) (r : WorldObj.record) :
  0 <= i < width G -> 0 <= j < height G ->
  encodable_cell r ->
  exists G',
    (v <- WorldObj_decode (WorldObj.type_idx r) (WorldObj.color_idx r) (WorldObj.aux r) ;;
     set i j v) G = (inr tt, G')
    /\ state G' = WorldObjState.setitem (state G) i j r.
Proof.
  intros Hi Hj [->|(k & Hk & Ht)].
  - unfold WorldObj_decode. simpl. unfold bind at 1. unfold ret at 1.
    rewrite set_VNone by assumption. eexists. split; reflexivity.
  - unfold WorldObj_decode. rewrite Ht.
    replace ((Type_.to_index k =? Type_.to_index Type_.empty)
             || (Type_.to_index k =? Type_.to_index Type_.unseen)) with false
      by (destruct k; try discriminate Hk; reflexivity).
    unfold new_obj. run.
    set (G1 := {| world_objects := world_objects G; state := state G;
                  obj_state := fun k0 => if (k0 =? next_obj G)%nat
                                         then Owned (WorldObj.Rec (Type_.to_index k) (WorldObj.color_idx r) (WorldObj.aux r))
                                         else obj_state G k0;
                  next_obj := S (next_obj G) |}).
    change (exists G', set i j (VObj (next_obj G)) G1 = (inr tt, G') /\ state G' = WorldObjState.setitem (state G) i j r).
    rewrite (set_VObj G1) by assumption. eexists. split; [reflexivity|]. simpl.
    unfold obj_record. simpl. rewrite Nat.eqb_refl. simpl.
    destruct r as [t c a]. simpl in *. subst t. reflexivity.
Qed.

(** C1: for every grid of the data model (width and height at least 3)
    whose cells are empty or hold encodable object kinds,
    [Grid.decode(g.encode())] succeeds and its grid equals [g] under
    [__eq__], that is, the two state arrays have the same shape and the
    same records. *)
Theorem decode_encode_roundtrip (g : Grid.t) :
  3 <= width g -> 3 <= height g -> encodable g ->
  exists g' vis_mask,
    decode (encode None g) = inr (g', vis_mask)
    /\ Grid.eq g' g = true.
Proof.
  intros Hw Hh Hg.
  set (w := width g). set (h := height g).
  set (target := WorldObjState.cells (state g)).
  pose (I := fun (n : Z) (G : Grid.t) =>
    WorldObjState.shape (state G) = (w, h)
    /\ forall x y, 0 <= x < n -> 0 <= y < h -> WorldObjState.cells (state G) x y = target x y).
  unfold decode. simpl. fold w h. unfold init.
  replace (3 <=? w) with true by (symmetry; apply Z.leb_le; exact Hw).
  replace (3 <=? h) with true by (symmetry; apply Z.leb_le; exact Hh). simpl.
  match goal with |- context [for_each (range w) ?body ?s] =>
    destruct (for_range_inv I body w s) as (G' & E & Hshape & Hcells) end.
  - lia.
  - split; [reflexivity|]. intros x y Hx. lia.
  - intros i G0 Hi [Hs0 Hc0].
    pose (J := fun (m : Z) (G : Grid.t) =>
      WorldObjState.shape (state G) = (w, h)
      /\ forall x y, 0 <= y < h -> (0 <= x < i \/ (x = i /\ 0 <= y < m)) ->
           WorldObjState.cells (state G) x y = target x y).
    match goal with |- context [for_each (range h) ?body] =>
      destruct (for_range_inv J body h G0) as (G1 & E1 & Hs1 & Hc1) end.
    + lia.
    + split; [exact Hs0|]. intros x y Hy [Hx|[_ Hx]]; [|lia]. apply Hc0; assumption.
    + intros j G2 Hj [Hs2 Hc2].
      unfold WorldObjState.encode, WorldObj.encode.
      destruct (decode_cell G2 i j (target i j)) as (G3 & E3 & Hst3).
      * unfold width. rewrite Hs2. exact Hi.
      * unfold height. rewrite Hs2. exact Hj.
      * apply Hg; assumption.
      * exists G3. split; [exact E3|]. unfold J. rewrite Hst3. split; [exact Hs2|].
        intros x y Hy Hxy. simpl.
        destruct (Z.eqb_spec x i) as [->|Hxi]; simpl.
        -- destruct (Z.eqb_spec y j) as [->|Hyj]; [reflexivity|]. apply Hc2; [exact Hy|]. lia.
        -- apply Hc2; [exact Hy|]. lia.
    + exists G1. split; [exact E1|]. split; [exact Hs1|]. intros x y Hx Hy. apply Hc1; [exact Hy|]. lia.
  - rewrite E. eexists _, _. split; [reflexivity|].
    unfold Grid.eq, WorldObjState.array_equal. apply andb_true_intro. split.
    + apply bool_decide_eq_true. rewrite Hshape. unfold w, h, width, height.
      destruct (WorldObjState.shape (state g)); reflexivity.
    + rewrite Hshape. simpl. apply forallb_forall. intros x Hx. apply forallb_forall. intros y Hy.
      apply elem_of_range in Hx. apply elem_of_range in Hy.
      apply bool_decide_eq_true. apply Hcells; assumption.
Qed.

Lemma lookup_column st s b c i :
  st !! base s = Some b ->
  (i < AgentState.size (dims s))%nat ->
  AgentState.column st s c !! i = (fun row => row !!! c) <$> rows b !! (offset s + i)%nat.
Proof.
  intros Hb Hi. unfold AgentState.column, AgentState.window_rows. rewrite Hb.
  rewrite list_lookup_fmap, lookup_take_lt by exact Hi. rewrite lookup_drop. reflexivity.
Qed.

Lemma lookup_column_ge st s c i :
  (AgentState.size (dims s) <= i)%nat -> AgentState.column st s c !! i = None.
Proof.
  intros Hi. unfold AgentState.column, AgentState.window_rows.
  rewrite list_lookup_fmap. destruct (st !! base s); [|reflexivity].
  rewrite lookup_take_ge by exact Hi. reflexivity.
Qed.

Lemma length_column st s c :
  valid st s -> length (AgentState.column st s c) = AgentState.size (dims s).
Proof.
  intros (b & Hb & Hlen & _). unfold AgentState.column, AgentState.window_rows. rewrite Hb.
  rewrite length_map, length_take, length_drop. lia.
Qed.

Lemma write_column_store st s b c f :
  st !! base s = Some b ->
  exists st',
    AgentState.write_column s c f st = (inr tt, st')
    /\ st' !! base s =
         Some {| rows := imap (fun n row => if AgentState.in_window s n
                                            then <[c := f (n - offset s)%nat]> row else row) (rows b);
                 carried_obj := carried_obj b |}.
Proof.
  intros Hb.
  exists (alter (AgentState.update_rows s (fun n row => <[c := f n]> row)) (base s) st).
  split; [reflexivity|].
  rewrite list_lookup_alter_eq, Hb. reflexivity.
Qed.

Lemma in_window_iff s n :
  AgentState.in_window s n = true <-> (offset s <= n < offset s + AgentState.size (dims s))%nat.
Proof.
  unfold AgentState.in_window. rewrite andb_true_iff, Nat.leb_le, Nat.ltb_lt. reflexivity.
Qed.

Lemma norm_index_nonneg k n : 0 <= k < Z.of_nat n -> AgentState.norm_index k n = Some (Z.to_nat k).
Proof.
  intros H. unfold AgentState.norm_index.
  rewrite (proj2 (andb_true_iff _ _)); [reflexivity|].
  split; [apply Z.leb_le | apply Z.ltb_lt]; lia.
Qed.

Lemma of_index_to_index d : Direction.of_index (Direction.to_index d) = Some d.
Proof. destruct d; reflexivity. Qed.

Lemma dir_scalar st s z d :
  dims s = [] ->
  AgentState.column st s DIR !! 0%nat = Some z ->
  Direction.of_index z = Some d ->
  AgentState.dir s st = (inr (AgentState.DirScalar d), st).
Proof.
  intros Hd Hc Hz. unfold AgentState.dir, bind, gets. rewrite Hd, Hc. simpl. rewrite Hz. reflexivity.
Qed.

Lemma dir_batch st s n ds :
  dims s = n :: ds ->
  AgentState.dir s st = (inr (AgentState.DirBatch (AgentState.column st s DIR)), st).
Proof. intros Hd. unfold AgentState.dir, bind, gets. rewrite Hd. reflexivity. Qed.

Lemma modify_alter_last {A : Type} (f : A -> A) (l : list A) (x : A) :
  alter f (length l) (l ++ [x]) = l ++ [f x].
Proof. rewrite alter_app_r_alt by lia. rewrite Nat.sub_diag. reflexivity. Qed.

Lemma new_batch (N : nat) (st : Store) :
  N <> AgentState.dim ->
  AgentState.new [N] st =
    (inr {| base := length st; offset := 0; dims := [N] |},
     st ++ [{| rows := map default_row (seq 0 N); carried_obj := replicate N None |}]).
Proof.
  intros HN. unfold AgentState.new, AgentState.write_column. run.
  rewrite (bool_decide_eq_false_2 (Some N = Some AgentState.dim)) by congruence.
  simpl. rewrite !modify_alter_last. simpl. do 4 f_equal.
  - apply list_eq. intros i. rewrite !list_lookup_imap, list_lookup_fmap.
    destruct (decide (i < N)%nat) as [Hi|Hi].
    + rewrite lookup_replicate_2 by lia. rewrite lookup_seq_lt by exact Hi. simpl.
      replace (AgentState.in_window _ i) with true.
      2:{ symmetry. apply in_window_iff. simpl. lia. }
      rewrite Nat.sub_0_r. reflexivity.
    + rewrite (proj1 (lookup_replicate_None _ _ _)) by lia.
      rewrite lookup_seq_ge by lia. reflexivity.
  - f_equal. lia.
Qed.

Lemma new_at_dim (st : Store) :
  (AgentState.new [AgentState.dim] st).1 = inl AttributeError.
Proof. reflexivity. Qed.

Lemma from_index_cycle (k : nat) :
  Color.from_index (Z.of_nat k mod Color.len) = Some (color_cycle k).
Proof.
  unfold color_cycle. pose proof (Z.mod_pos_bound (Z.of_nat k) Color.len eq_refl) as H.
  unfold Color.len in *.
  assert (Hc : Z.of_nat k mod 6 = 0 \/ Z.of_nat k mod 6 = 1 \/ Z.of_nat k mod 6 = 2
          \/ Z.of_nat k mod 6 = 3 \/ Z.of_nat k mod 6 = 4 \/ Z.of_nat k mod 6 = 5) by lia.
  destruct Hc as [E|[E|[E|[E|[E|E]]]]]; rewrite E; reflexivity.
Qed.

Lemma mapM_map_Some {A B C : Type} (f : B -> option C) (g : A -> B) (h : A -> C) (l : list A) :
  (forall x, f (g x) = Some (h x)) -> mapM f (map g l) = Some (map h l).
Proof.
  intros H. induction l as [|x l IH]; [reflexivity|].
  simpl. rewrite H. simpl. rewrite IH. reflexivity.
Qed.

Lemma map_const_seq {A : Type} (f : nat -> A) (x : A) (a n : nat) :
  (forall k, f k = x) -> map f (seq a n) = replicate n x.
Proof.
  intros H. revert a. induction n as [|n IH]; intros a; simpl; [reflexivity|].
  rewrite H, IH. reflexivity.
Qed.

(** X1: for every batch size other than the record width, [AgentState(N)]
    returns a batch whose records have type agent, dir -1, pos (-1, -1),
    terminated false, nothing carried, and the colour at index
    (flat index mod number of colours). *)
Theorem new_defaults (N : nat) (st : Store) :
  N <> AgentState.dim ->
  exists s st',
    AgentState.new [N] st = (inr s, st')
    /\ dims s = [N]
    /\ AgentState.column st' s TYPE = replicate N (Type_.to_index Type_.agent)
    /\ AgentState.dir s st' = (inr (AgentState.DirBatch (replicate N (-1))), st')
    /\ AgentState.pos s st' = (inr (AgentState.Batch (replicate N (-1, -1))), st')
    /\ AgentState.terminated s st' = (inr (AgentState.Batch (replicate N false)), st')
    /\ AgentState.carrying s st' = (inr (AgentState.Batch (replicate N None)), st')
    /\ AgentState.color s st' = (inr (AgentState.Batch (map color_cycle (seq 0 N))), st').
Proof.
  intros HN. rewrite new_batch by exact HN. eexists _, _. split; [reflexivity|].
  split; [reflexivity|].
  set (s := {| base := length st; offset := 0; dims := [N] |}).
  set (b := {| rows := map default_row (seq 0 N); carried_obj := replicate N None |}).
  assert (Hb : (st ++ [b]) !! base s = Some b).
  { simpl. rewrite lookup_app_r by lia. rewrite Nat.sub_diag. reflexivity. }
  assert (Hcol : forall c, AgentState.column (st ++ [b]) s c
                           = map (fun k => default_row k !!! c) (seq 0 N)).
  { intros c. unfold AgentState.column, AgentState.window_rows. rewrite Hb.
    unfold b, s. cbn [rows offset dims AgentState.size foldr drop].
    rewrite Nat.mul_1_r, drop_0, take_ge by (rewrite length_map, length_seq; lia).
    rewrite map_map. reflexivity. }
  assert (Hcar : AgentState.window_carried (st ++ [b]) s = replicate N None).
  { unfold AgentState.window_carried. rewrite Hb.
    unfold b, s. cbn [carried_obj offset dims AgentState.size foldr drop].
    rewrite Nat.mul_1_r, drop_0, take_ge by (rewrite length_replicate; lia). reflexivity. }
  repeat split.
  - rewrite Hcol. apply map_const_seq. reflexivity.
  - unfold AgentState.dir, bind, gets, ret. simpl. rewrite Hcol.
    rewrite (map_const_seq _ (-1)) by reflexivity. reflexivity.
  - unfold AgentState.pos, bind, gets, ret. rewrite !Hcol.
    rewrite !(map_const_seq _ (-1)) by reflexivity. unfold AgentState.as_field. simpl.
    do 3 f_equal. clear. induction N as [|N IH]; simpl; [reflexivity|]. rewrite IH. reflexivity.
  - unfold AgentState.terminated, bind, gets, ret. rewrite Hcol.
    rewrite (map_const_seq _ 0) by reflexivity. unfold AgentState.as_field. simpl.
    do 3 f_equal. clear. induction N as [|N IH]; simpl; [reflexivity|]. rewrite IH. reflexivity.
  - unfold AgentState.carrying, bind, gets, ret. rewrite Hcar. reflexivity.
  - unfold AgentState.color, bind, gets, ret. rewrite Hcol.
    rewrite (mapM_map_Some Color.from_index _ color_cycle) by (intros k; apply from_index_cycle).
    reflexivity.
Qed.

(** The scenario of the docstring: [AgentState(3)] has dir -1 three times,
    and after [agent_state[1].color = 'yellow'] the colours are the
    defaults at 0 and 2 and yellow at 1. *)
Lemma three_agents_colors :
  (three_agents []).1 = inr (AgentState.Batch [Color.red; Color.yellow; Color.blue])
  /\ ((s <- AgentState.new [3%nat] ;; AgentState.dir s) []).1
     = inr (AgentState.DirBatch [-1; -1; -1]).
Proof. split; vm_compute; reflexivity. Qed.

(** C7 at the failing input: [AgentState(n)] with n the width of an agent
    record, and any shape that ends in that width, raises AttributeError
    inside [__new__] instead of returning a batch with the defaults. *)
Theorem new_at_record_width_raises (st : Store) :
  (AgentState.new [AgentState.dim] st).1 = inl AttributeError
  /\ (AgentState.new [2%nat; AgentState.dim] st).1 = inl AttributeError.
Proof. split; reflexivity. Qed.

(** C6 at the failing input: in the scenario [Grid(8, 8)],
    [wall_rect(0, 0, 8, 8)], [set(3, 3, agent)] with a red agent facing
    right at (3, 3), the [set] raises AttributeError; cell (3, 3) of
    [encode()] stays the empty record and not the agent's encoding, while
    [get(3, 3)] returns the Agent, whose front cell is (4, 3). *)
Theorem agent_scenario_raises (Wall : WorldObj.record) :
  (placed_agent []).1 = inr example_agent
  /\ exists g1,
       walled_room Wall example_agent = inr (inl AttributeError, g1)
       /\ enc (encode None g1) 3 3 = WorldObj.encode WorldObj.empty
       /\ enc (encode None g1) 3 3 <> (Type_.to_index Type_.agent, Color.to_index Color.red,
                                       Direction.to_index Direction.right)
       /\ (Agent.encode example_agent (placed_agent []).2).1
          = inr (Type_.to_index Type_.agent, Color.to_index Color.red,
                 Direction.to_index Direction.right)
       /\ (get 3 3 g1).1 = inr (VAgent example_agent)
       /\ (Agent.front_pos example_agent (placed_agent []).2).1 = inr (4, 3).
Proof.
  split; [vm_compute; reflexivity|].
  eexists. split; [vm_compute; reflexivity|].
  split; [vm_compute; reflexivity|].
  split; [vm_compute; discriminate|].
  split; [vm_compute; reflexivity|].
  split; vm_compute; reflexivity.
Qed.

Section RenderTileProps.
Context {R : Rasterizer}.

Lemma render_tile_hit obj highlight tile_size subdivs cache img :
  cache !! key_of obj highlight tile_size = Some img ->
  render_tile obj highlight tile_size subdivs cache = (inr img, cache).
Proof. intros H. unfold render_tile. rewrite H. reflexivity. Qed.

Lemma render_tile_miss obj highlight tile_size subdivs cache :
  cache !! key_of obj highlight tile_size = None ->
  render_tile obj highlight tile_size subdivs cache
  = match draw_tile obj highlight tile_size subdivs with
    | inr img => (inr img, <[key_of obj highlight tile_size := img]> cache)
    | inl e => (inl e, cache)
    end.
Proof. intros H. unfold render_tile. rewrite H. reflexivity. Qed.

Lemma render_tile_returned obj highlight tile_size subdivs cache img cache1 :
  render_tile obj highlight tile_size subdivs cache = (inr img, cache1) ->
  cache1 !! key_of obj highlight tile_size = Some img /\ cache ⊆ cache1.
Proof.
  unfold render_tile. destruct (cache !! key_of obj highlight tile_size) as [img0|] eqn:E.
  - intros H. injection H as <- <-. split; [exact E | reflexivity].
  - destruct (draw_tile obj highlight tile_size subdivs) as [e|img0]; intros H; [discriminate H|].
    injection H as <- <-. split; [apply lookup_insert_eq | apply insert_subseteq; exact E].
Qed.

Lemma render_tile_raised obj highlight tile_size subdivs cache e cache1 :
  render_tile obj highlight tile_size subdivs cache = (inl e, cache1) -> cache1 = cache.
Proof.
  unfold render_tile. destruct (cache !! key_of obj highlight tile_size); [discriminate|].
  destruct (draw_tile obj highlight tile_size subdivs); intros H; [|discriminate H].
  injection H as _ <-. reflexivity.
Qed.

Lemma paint_tile_rows obj highlight img : length (paint_tile obj highlight img) = length img.
Proof.
  unfold paint_tile. destruct highlight; [rewrite highlight_img_rows|];
    (destruct obj; [rewrite wo_render_rows|]); rewrite !fill_coords_rows; reflexivity.
Qed.

Lemma draw_tile_negative obj highlight tile_size subdivs :
  tile_size * subdivs < 0 -> draw_tile obj highlight tile_size subdivs = inl ValueError.
Proof.
  intros H. unfold draw_tile, zeros.
  rewrite (proj2 (Z.ltb_lt _ _) H). reflexivity.
Qed.

Lemma draw_tile_empty obj highlight subdivs :
  0 < subdivs -> draw_tile obj highlight 0 subdivs = inr [].
Proof.
  intros H. unfold draw_tile, zeros. simpl.
  destruct (downsample_rows (paint_tile obj highlight []) subdivs H) as (out & E & Hlen).
  - rewrite paint_tile_rows. apply Z.mod_0_l. lia.
  - etransitivity; [exact E|]. rewrite paint_tile_rows in Hlen. simpl in Hlen.
    rewrite Z.div_0_l in Hlen by lia. apply length_zero_iff_nil in Hlen. rewrite Hlen. reflexivity.
Qed.

Lemma render_tile_miss_empty obj highlight subdivs cache :
  0 < subdivs ->
  cache !! key_of obj highlight 0 = None ->
  render_tile obj highlight 0 subdivs cache = (inr [], <[key_of obj highlight 0 := []]> cache).
Proof. intros Hs H. rewrite render_tile_miss by exact H. rewrite draw_tile_empty by exact Hs. reflexivity. Qed.

End RenderTileProps.

(** C9 as stated fails: with tile_size 0 the calls with and without
    highlight both return the empty buffer. *)
Lemma render_tile_size_zero_highlight :
  let r1 := render_tile (R := spec_rasterizer) None true 0 3 ∅ in
  let r2 := render_tile (R := spec_rasterizer) None false 0 3 r1.2 in
  r1.1 = inr [] /\ r2.1 = inr [] /\ r1.1 = r2.1.
Proof.
  cbv zeta. rewrite (render_tile_miss_empty None true 3 ∅) by (lia || apply lookup_empty).
  cbn [fst snd]. rewrite render_tile_miss_empty; [auto | lia |].
  rewrite lookup_insert_ne by discriminate. apply lookup_empty.
Qed.

(** No instance of the drawing primitives makes the buffers differ for
    every tile size. *)
Lemma no_rasterizer_separates_highlight :
  ~ exists R : Rasterizer, forall obj tile_size subdivs cache,
      let r1 := render_tile obj true tile_size subdivs cache in
      let r2 := render_tile obj false tile_size subdivs r1.2 in
      r1.1 <> r2.1.
Proof.
  intros (R & H). apply (H None 0 3 ∅). cbv zeta.
  rewrite (render_tile_miss_empty None true 3 ∅) by (lia || apply lookup_empty).
  cbn [fst snd]. rewrite render_tile_miss_empty; [reflexivity | lia |].
  rewrite lookup_insert_ne by discriminate. apply lookup_empty.
Qed.

Lemma overlay_raises (k : nat) (p : pixel) :
  channel k p <= 251 -> channel k p + 1 <= channel k (overlay p).
Proof.
  assert (H : forall c, c <= 251 -> c + 1 <= c + (255 - c) * 3 / 10).
  { intros c Hc. assert (1 <= (255 - c) * 3 / 10); [|lia].
    apply Z.div_le_lower_bound; lia. }
  destruct p as [[r g] b]. destruct k as [|[|k]]; simpl; apply H.
Qed.

Lemma dim_image_zeros (k n : nat) : dim_image k n (replicate n (replicate n (0, 0, 0))).
Proof.
  split; [apply length_replicate|]. apply Forall_replicate.
  split; [apply length_replicate|]. apply Forall_replicate.
  destruct k as [|[|k]]; simpl; lia.
Qed.

Lemma dim_image_fill (k n : nat) (img : image) (fn : Q -> Q -> bool) (c : pixel) :
  channel k c <= 251 -> dim_image k n img -> dim_image k n (fill img fn c).
Proof.
  intros Hc [Hlen Hrows]. unfold fill. split; [rewrite length_imap; exact Hlen|].
  apply Forall_lookup. intros y row Hy. rewrite list_lookup_imap in Hy.
  apply fmap_Some in Hy as (row0 & Hr & ->).
  destruct (proj1 (Forall_lookup _ _) Hrows y row0 Hr) as [Hl Hpx].
  split; [rewrite length_imap; exact Hl|].
  apply Forall_lookup. intros x px Hx. rewrite list_lookup_imap in Hx.
  apply fmap_Some in Hx as (px0 & Hp & ->).
  destruct (fn _ _); [exact Hc|]. exact (proj1 (Forall_lookup _ _) Hpx x px0 Hp).
Qed.

Lemma dim_image_paint (k n : nat) (obj : option world_obj) (img : image) :
  dim_object k obj -> dim_image k n img ->
  dim_image k n (paint_tile (R := spec_rasterizer) obj false img).
Proof.
  intros Ho Hi. unfold paint_tile.
  assert (Hc : channel k (100, 100, 100) <= 251) by (destruct k as [|[|k]]; simpl; lia).
  assert (H2 : dim_image k n (fill (fill img (in_rect 0 (31 # 1000) 0 1) (100, 100, 100))
                                (in_rect 0 1 0 (31 # 1000)) (100, 100, 100))).
  { apply dim_image_fill; [exact Hc|]. apply dim_image_fill; [exact Hc | exact Hi]. }
  destruct obj as [o|]; [apply Ho; exact H2 | exact H2].
Qed.

Lemma length_concat_uniform {A : Type} (m : nat) (ls : list (list A)) :
  Forall (fun l => length l = m) ls -> length (concat ls) = (length ls * m)%nat.
Proof.
  induction 1 as [|l ls Hl _ IH]; [reflexivity|]. simpl. rewrite length_app, Hl, IH. reflexivity.
Qed.

Lemma sum_overlay (k : nat) (px : list pixel) :
  Forall (fun p => channel k p <= 251) px ->
  foldr Z.add 0 (map (channel k) px) + Z.of_nat (length px)
  <= foldr Z.add 0 (map (channel k) (map overlay px)).
Proof.
  induction 1 as [|p px Hp _ IH]; [reflexivity|]. simpl length. simpl map. simpl foldr.
  pose proof (overlay_raises k p Hp). lia.
Qed.

(** The pixels of block (Y, X) of a downsampling by [f]. *)
Lemma block_overlay (img : image) (f Y X : nat) :
  concat (map (fun row => take f (drop (X * f) row))
              (take f (drop (Y * f) (map (map overlay) img))))
  = map overlay (concat (map (fun row => take f (drop (X * f) row))
                             (take f (drop (Y * f) img)))).
Proof.
  rewrite concat_map, map_map.
  change (map (map overlay) img) with (map overlay <$> img).
  rewrite <- fmap_drop, <- fmap_take.
  change (map overlay <$> take f (drop (Y * f) img))
    with (map (map overlay) (take f (drop (Y * f) img))).
  rewrite map_map. f_equal. apply map_ext. intros row.
  change (map overlay row) with (overlay <$> row).
  rewrite <- fmap_drop, <- fmap_take. reflexivity.
Qed.

Lemma block_mean_channel (k : nat) (img : image) (f Y X : nat) :
  channel k (block_mean img f Y X)
  = foldr Z.add 0 (map (channel k)
      (concat (map (fun row => take f (drop (X * f) row)) (take f (drop (Y * f) img)))))
    / Z.of_nat (f * f).
Proof. destruct k as [|[|k]]; reflexivity. Qed.

Lemma Forall_block {A : Type} (P : A -> Prop) (f a b : nat) (img : list (list A)) :
  Forall (Forall P) img ->
  Forall P (concat (map (fun row => take f (drop b row)) (take f (drop a img)))).
Proof.
  intros H. assert (H' : Forall (Forall P) (take f (drop a img))) by (apply Forall_take, Forall_drop, H).
  induction H' as [|row rows Hrow _ IH]; [constructor|]. simpl. apply Forall_app. split; [|exact IH].
  apply Forall_take, Forall_drop, Hrow.
Qed.

Lemma length_block {A : Type} (f n : nat) (img : list (list A)) :
  (f <= n)%nat -> length img = n -> Forall (fun row => length row = n) img ->
  length (concat (map (fun row => take f (drop 0 row)) (take f (drop 0 img)))) = (f * f)%nat.
Proof.
  intros Hf Hlen Hrows.
  rewrite (length_concat_uniform f).
  - rewrite length_map, length_take, length_drop. f_equal. lia.
  - apply Forall_map. eapply Forall_impl; [apply Forall_take, Forall_drop; exact Hrows|].
    intros row Hr. simpl in Hr. rewrite length_take, length_drop. lia.
Qed.

Lemma first_block {A : Type} (g h : nat -> nat -> A) (T : nat) :
  map (fun Y => map (fun X => g Y X) (seq 0 (S T))) (seq 0 (S T))
  = map (fun Y => map (fun X => h Y X) (seq 0 (S T))) (seq 0 (S T)) ->
  g 0%nat 0%nat = h 0%nat 0%nat.
Proof. simpl. intros H. injection H as H _. exact H. Qed.

Lemma block_means_differ (k T f : nat) (img : image) :
  (1 <= T)%nat -> (1 <= f)%nat -> dim_image k (T * f) img ->
  block_means (map (map overlay) img) (Z.of_nat f) <> block_means img (Z.of_nat f).
Proof.
  intros HT Hf [Hlen Hrows] Heq.
  assert (HTf : (f <= T * f)%nat) by nia.
  assert (Hhead : length (default [] (head img)) = (T * f)%nat).
  { destruct img as [|row img]; [simpl in Hlen; nia|]. simpl.
    apply Forall_cons in Hrows as [[Hl _] _]. exact Hl. }
  assert (Hhead' : length (default [] (head (map (map overlay) img))) = (T * f)%nat).
  { destruct img as [|row img]; [simpl in Hlen; nia|]. simpl. rewrite length_map.
    apply Forall_cons in Hrows as [[Hl _] _]. exact Hl. }
  assert (Hout : Z.to_nat (Z.of_nat (T * f) / Z.of_nat f) = T).
  { rewrite Nat2Z.inj_mul, Z.div_mul by lia. lia. }
  unfold block_means in Heq.
  rewrite length_map, Hhead, Hhead', Hlen, Hout, Nat2Z.id in Heq.
  destruct T as [|T]; [lia|].
  apply (first_block (block_mean (map (map overlay) img) f) (block_mean img f)) in Heq.
  apply (f_equal (channel k)) in Heq. rewrite !block_mean_channel in Heq.
  rewrite block_overlay in Heq. change (0 * f)%nat with 0%nat in Heq.
  set (px := concat (map (fun row => take f (drop 0 row)) (take f (drop 0 img)))) in *.
  assert (Hpx : Forall (fun p => channel k p <= 251) px).
  { apply Forall_block. eapply Forall_impl; [exact Hrows|]. intros row [_ H]. exact H. }
  assert (Hn : length px = (f * f)%nat).
  { apply (length_block f (S T * f)); [exact HTf | exact Hlen|].
    eapply Forall_impl; [exact Hrows|]. intros row [H _]. exact H. }
  pose proof (sum_overlay k px Hpx) as Hsum. rewrite Hn in Hsum.
  set (n := Z.of_nat (f * f)) in *.
  set (S0 := foldr Z.add 0 (map (channel k) px)) in *.
  set (S1 := foldr Z.add 0 (map (channel k) (map overlay px))) in *.
  assert (Hnpos : 0 < n) by (unfold n; nia).
  assert (H1 : (S0 + 1 * n) / n <= S1 / n) by (apply Z.div_le_mono; lia).
  rewrite Z.div_add in H1 by lia. lia.
Qed.

(** C9, amended.  For a tile of size at least 1, rendered at a
    subdivision factor of at least 1 with the primitives as the spec
    describes them, an object whose drawing leaves one colour channel at
    most 251 everywhere (or no object), and a cache that holds neither
    key: the call with highlight and the call without both return, their
    buffers differ, each is stored under its own key, and every later
    call with one of the two keys returns the same buffer from any larger
    cache, whatever object with that encoding and whatever [subdivs] it is
    given.  For every instance of the primitives, every object and every
    size: a call that has returned is repeated by every later call with
    the same key, the cache only grows, a call that raises leaves the
    cache as it was, and a negative size raises ValueError on a miss. *)
Theorem render_tile_cache_deterministic (k : nat) (obj : option world_obj) (tile_size subdivs : Z)
    (cache : gmap cache_key image) :
  1 <= tile_size -> 1 <= subdivs -> dim_object k obj ->
  cache !! key_of obj true tile_size = None ->
  cache !! key_of obj false tile_size = None ->
  (exists lit plain,
     let cache1 := <[key_of obj true tile_size := lit]> cache in
     let cache2 := <[key_of obj false tile_size := plain]> cache1 in
     render_tile (R := spec_rasterizer) obj true tile_size subdivs cache = (inr lit, cache1)
     /\ render_tile (R := spec_rasterizer) obj false tile_size subdivs cache1 = (inr plain, cache2)
     /\ lit <> plain
     /\ forall obj' subdivs' cache',
          cache2 ⊆ cache' -> wo_encode <$> obj' = wo_encode <$> obj ->
          render_tile (R := spec_rasterizer) obj' true tile_size subdivs' cache' = (inr lit, cache')
          /\ render_tile (R := spec_rasterizer) obj' false tile_size subdivs' cache'
             = (inr plain, cache'))
  /\ (forall (R : Rasterizer) obj0 highlight size0 subdivs0 cache0,
        (forall img cache1,
           render_tile obj0 highlight size0 subdivs0 cache0 = (inr img, cache1) ->
           cache0 ⊆ cache1
           /\ forall obj' subdivs' cache',
                cache1 ⊆ cache' -> wo_encode <$> obj' = wo_encode <$> obj0 ->
                render_tile obj' highlight size0 subdivs' cache' = (inr img, cache'))
        /\ (forall e cache1,
              render_tile obj0 highlight size0 subdivs0 cache0 = (inl e, cache1) -> cache1 = cache0)
        /\ (size0 * subdivs0 < 0 -> cache0 !! key_of obj0 highlight size0 = None ->
            render_tile obj0 highlight size0 subdivs0 cache0 = (inl ValueError, cache0))
        /\ key_of obj0 (negb highlight) size0 <> key_of obj0 highlight size0).
Proof.
  intros Hts Hsd Hobj Hc1 Hc2.
  assert (Hgen : forall (R : Rasterizer) obj0 highlight size0 subdivs0 cache0 img cache1,
            render_tile obj0 highlight size0 subdivs0 cache0 = (inr img, cache1) ->
            cache0 ⊆ cache1
            /\ forall obj' subdivs' cache',
                 cache1 ⊆ cache' -> wo_encode <$> obj' = wo_encode <$> obj0 ->
                 render_tile obj' highlight size0 subdivs' cache' = (inr img, cache')).
  { intros R obj0 h size0 sd0 cache0 img cache1 E.
    destruct (render_tile_returned _ _ _ _ _ _ _ E) as [Hst Hsub]. split; [exact Hsub|].
    intros obj' sd' cache' Hc He. apply render_tile_hit.
    unfold key_of in *. rewrite He. eapply lookup_weaken; eassumption. }
  split.
  - set (W := Z.to_nat (tile_size * subdivs)).
    set (img0 := replicate W (replicate W (0, 0, 0)) : image).
    set (base_img := paint_tile (R := spec_rasterizer) obj false img0).
    assert (HW : W = (Z.to_nat tile_size * Z.to_nat subdivs)%nat) by (unfold W; nia).
    assert (Hdim : dim_image k (Z.to_nat tile_size * Z.to_nat subdivs) base_img).
    { rewrite <- HW. apply dim_image_paint; [exact Hobj | apply dim_image_zeros]. }
    assert (Hdraw : forall h, draw_tile (R := spec_rasterizer) obj h tile_size subdivs
                              = inr (block_means (if h then map (map overlay) base_img else base_img)
                                                 subdivs)).
    { intros h. unfold draw_tile, zeros.
      replace (tile_size * subdivs <? 0) with false by (symmetry; apply Z.ltb_ge; nia).
      simpl. unfold block_means_checked.
      rewrite (proj2 (Z.ltb_lt 0 subdivs)) by lia. destruct h; reflexivity. }
    exists (block_means (map (map overlay) base_img) subdivs), (block_means base_img subdivs).
    cbv zeta.
    assert (E1 : render_tile (R := spec_rasterizer) obj true tile_size subdivs cache
                 = (inr (block_means (map (map overlay) base_img) subdivs),
                    <[key_of obj true tile_size := block_means (map (map overlay) base_img) subdivs]>
                      cache)).
    { rewrite render_tile_miss by exact Hc1. rewrite Hdraw. reflexivity. }
    assert (E2 : render_tile (R := spec_rasterizer) obj false tile_size subdivs
                   (<[key_of obj true tile_size := block_means (map (map overlay) base_img) subdivs]>
                      cache)
                 = (inr (block_means base_img subdivs),
                    <[key_of obj false tile_size := block_means base_img subdivs]>
                      (<[key_of obj true tile_size
                         := block_means (map (map overlay) base_img) subdivs]> cache))).
    { rewrite render_tile_miss.
      - rewrite Hdraw. reflexivity.
      - rewrite lookup_insert_ne; [exact Hc2|]. unfold key_of. intros H. inversion H. }
    split; [exact E1|]. split; [exact E2|]. split.
    + rewrite <- (Z2Nat.id subdivs) by lia.
      apply (block_means_differ k (Z.to_nat tile_size) (Z.to_nat subdivs)); [lia | lia|].
      exact Hdim.
    + intros obj' sd' cache' Hsub He. split.
      * apply (proj2 (Hgen _ _ _ _ _ _ _ _ E1)); [|exact He].
        etransitivity; [|exact Hsub]. apply insert_subseteq.
        rewrite lookup_insert_ne; [exact Hc2|]. unfold key_of. intros H. inversion H.
      * apply (proj2 (Hgen _ _ _ _ _ _ _ _ E2)); [exact Hsub | exact He].
  - intros R obj0 h size0 sd0 cache0. split; [|split; [|split]].
    + intros img cache1 E. exact (Hgen R _ _ _ _ _ _ _ E).
    + intros e cache1 E. exact (render_tile_raised _ _ _ _ _ _ _ E).
    + intros Hneg Hmiss. rewrite render_tile_miss by exact Hmiss.
      rewrite draw_tile_negative by exact Hneg. reflexivity.
    + unfold key_of. intros H. inversion H. destruct h; discriminate.
Qed.

Lemma render_tile_cache_deterministic_witness :
  (exists lit plain,
     let cache1 := <[key_of None true 1 := lit]> (∅ : gmap cache_key image) in
     let cache2 := <[key_of None false 1 := plain]> cache1 in
     render_tile (R := spec_rasterizer) None true 1 3 ∅ = (inr lit, cache1)
     /\ render_tile (R := spec_rasterizer) None false 1 3 cache1 = (inr plain, cache2)
     /\ lit <> plain
     /\ forall obj' subdivs' cache',
          cache2 ⊆ cache' -> wo_encode <$> obj' = wo_encode <$> None ->
          render_tile (R := spec_rasterizer) obj' true 1 subdivs' cache' = (inr lit, cache')
          /\ render_tile (R := spec_rasterizer) obj' false 1 subdivs' cache'
             = (inr plain, cache'))
  /\ (forall (R : Rasterizer) obj0 highlight size0 subdivs0 cache0,
        (forall img cache1,
           render_tile obj0 highlight size0 subdivs0 cache0 = (inr img, cache1) ->
           cache0 ⊆ cache1
           /\ forall obj' subdivs' cache',
                cache1 ⊆ cache' -> wo_encode <$> obj' = wo_encode <$> obj0 ->
                render_tile obj' highlight size0 subdivs' cache' = (inr img, cache'))
        /\ (forall e cache1,
              render_tile obj0 highlight size0 subdivs0 cache0 = (inl e, cache1) -> cache1 = cache0)
        /\ (size0 * subdivs0 < 0 -> cache0 !! key_of obj0 highlight size0 = None ->
            render_tile obj0 highlight size0 subdivs0 cache0 = (inl ValueError, cache0))
        /\ key_of obj0 (negb highlight) size0 <> key_of obj0 highlight size0).
Proof.
  apply (render_tile_cache_deterministic 0 None 1 3 ∅);
    [lia | lia | exact I | apply lookup_empty | apply lookup_empty].
Defined.

Lemma encodable_ball_grid : encodable ball_grid.
Proof.
  assert (Hs : state ball_grid = WorldObjState.setitem (WorldObjState.new 3 3) 1 1 red_ball)
    by (vm_compute; reflexivity).
  intros i j _ _. unfold encodable_cell. rewrite Hs. simpl.
  destruct ((i =? 1) && (j =? 1)).
  - right. exists Type_.ball. split; reflexivity.
  - left. reflexivity.
Qed.

Lemma decode_encode_roundtrip_witness :
  exists g' vis_mask,
    decode (encode None ball_grid) = inr (g', vis_mask)
    /\ Grid.eq g' ball_grid = true.
Proof.
  apply (decode_encode_roundtrip ball_grid);
    [change (3 <= 3); lia | change (3 <= 3); lia | exact encodable_ball_grid].
Defined.

Lemma valid_store3 : valid store3 batch3.
Proof.
  eexists. split; [reflexivity|]. split; [simpl; lia|].
  intros [|[|[|n]]] row H; vm_compute in H; inversion H; reflexivity.
Qed.

Lemma new_defaults_witness :
  exists s st',
    AgentState.new [3%nat] [] = (inr s, st')
    /\ dims s = [3%nat]
    /\ AgentState.column st' s TYPE = replicate 3 (Type_.to_index Type_.agent)
    /\ AgentState.dir s st' = (inr (AgentState.DirBatch (replicate 3 (-1))), st')
    /\ AgentState.pos s st' = (inr (AgentState.Batch (replicate 3 (-1, -1))), st')
    /\ AgentState.terminated s st' = (inr (AgentState.Batch (replicate 3 false)), st')
    /\ AgentState.carrying s st' = (inr (AgentState.Batch (replicate 3 None)), st')
    /\ AgentState.color s st' = (inr (AgentState.Batch (map color_cycle (seq 0 3))), st').
Proof. apply (new_defaults 3 []). unfold AgentState.dim. simpl. lia. Defined.

Lemma views_cached_set_witness : views_cached (set 1 1 (VObj 0) grid3).2.
Proof. apply (views_cached_set grid3 1 1 (VObj 0)). intros o x y H. discriminate H. Defined.

Lemma out_of_bounds_false (a n : Z) : ~ 0 <= a < n -> (0 <=? a) && (a <? n) = false.
Proof.
  intros H. apply not_true_is_false. rewrite andb_true_iff, Z.leb_le, Z.ltb_lt. lia.
Qed.

Lemma set_outside (g : Grid.t) (i j : Z) (v : value) :
  ~ (0 <= i < width g /\ 0 <= j < height g) -> set i j v g = (inl AssertionError, g).
Proof.
  intros H. unfold set. run.
  destruct (decide (0 <= i < width g)) as [Hi|Hi].
  - rewrite (in_bounds_true _ _ Hi). simpl.
    rewrite (out_of_bounds_false j (height g)) by tauto. reflexivity.
  - rewrite (out_of_bounds_false _ _ Hi). reflexivity.
Qed.

Lemma get_outside (g : Grid.t) (i j : Z) :
  ~ (0 <= i < width g /\ 0 <= j < height g) -> get i j g = (inl AssertionError, g).
Proof.
  intros H. unfold get. run.
  destruct (decide (0 <= i < width g)) as [Hi|Hi].
  - rewrite (in_bounds_true _ _ Hi). simpl.
    rewrite (out_of_bounds_false j (height g)) by tauto. reflexivity.
  - rewrite (out_of_bounds_false _ _ Hi). reflexivity.
Qed.

(** X3: any coordinate outside the grid, on either axis, makes [set] and
    [get] fail on their assertions without changing the grid: no cell, no
    cache entry and no handle is touched. *)
Theorem out_of_bounds_raises (g : Grid.t) (i j : Z) (v : value) :
  ~ (0 <= i < width g /\ 0 <= j < height g) ->
  set i j v g = (inl AssertionError, g) /\ get i j g = (inl AssertionError, g).
Proof.
  intros H. unfold set, get. run.
  destruct (decide (0 <= i < width g)) as [Hi|Hi].
  - rewrite (in_bounds_true _ _ Hi). simpl.
    rewrite (out_of_bounds_false j (height g)) by tauto. split; reflexivity.
  - rewrite (out_of_bounds_false _ _ Hi). split; reflexivity.
Qed.

Lemma out_of_bounds_raises_witness :
  set 5 0 VNone grid3 = (inl AssertionError, grid3)
  /\ get 5 0 grid3 = (inl AssertionError, grid3).
Proof.
  apply (out_of_bounds_raises grid3 5 0 VNone). change (~ (0 <= 5 < 3 /\ 0 <= 0 < 3)). lia.
Defined.

Lemma set_unfold (g : Grid.t) (i j : Z) (v : value) :
  0 <= i < width g -> 0 <= j < height g ->
  world_objects (set i j v g).2 = <[(i, j) := v]> (delete (i, j) (world_objects g))
  /\ WorldObjState.shape (state (set i j v g).2) = WorldObjState.shape (state g)
  /\ (forall x y, (x, y) <> (i, j) ->
        WorldObjState.cells (state (set i j v g).2) x y = WorldObjState.cells (state g) x y)
  /\ (forall k, match v with VObj o => k <> o | _ => True end ->
        obj_state (set i j v g).2 k = detached g i j k)
  /\ next_obj (set i j v g).2 = next_obj g.
Proof.
  intros Hi Hj.
  assert (Hne : forall x y (r c : WorldObj.record), (x, y) <> (i, j) ->
            (if (x =? i) && (y =? j) then r else c) = c).
  { intros x y r c Hxy. destruct (Z.eqb_spec x i) as [->|]; [|reflexivity].
    destruct (Z.eqb_spec y j) as [->|]; [congruence|reflexivity]. }
  destruct v as [|o|a|].
  - rewrite set_VNone by assumption. simpl. repeat split; auto.
  - rewrite set_VObj by assumption. simpl. repeat split; auto.
    intros k Hk. apply Nat.eqb_neq in Hk. rewrite Hk. reflexivity.
  - rewrite set_VAgent by assumption. simpl. repeat split; auto.
  - unfold set. run. rewrite (in_bounds_true _ _ Hi). simpl. rewrite (in_bounds_true _ _ Hj). simpl.
    unfold detached.
    destruct (default VNone (world_objects g !! (i, j))); simpl; repeat split; auto.
Qed.

(** X4: [set(i, j, v)] never touches another cell of [state], another entry
    of [world_objects], or the shape, whether it succeeds or raises. *)
Theorem set_frame (g : Grid.t) (i j : Z) (v : value) (x y : Z) :
  (x, y) <> (i, j) ->
  WorldObjState.cells (state (set i j v g).2) x y = WorldObjState.cells (state g) x y
  /\ world_objects (set i j v g).2 !! (x, y) = world_objects g !! (x, y)
  /\ width (set i j v g).2 = width g
  /\ height (set i j v g).2 = height g.
Proof.
  intros Hxy.
  destruct (decide (0 <= i < width g /\ 0 <= j < height g)) as [[Hi Hj]|Hout].
  - destruct (set_unfold g i j v Hi Hj) as (Hw & Hs & Hc & _).
    split; [apply Hc; exact Hxy|]. split.
    + rewrite Hw, lookup_insert_ne, lookup_delete_ne by congruence. reflexivity.
    + unfold width, height. rewrite Hs. split; reflexivity.
  - rewrite (set_outside g i j v Hout). repeat split; reflexivity.
Qed.

Lemma set_frame_witness :
  WorldObjState.cells (state (set 1 1 (VObj 0) grid3).2) 0 2 = WorldObjState.cells (state grid3) 0 2
  /\ world_objects (set 1 1 (VObj 0) grid3).2 !! (0, 2) = world_objects grid3 !! (0, 2)
  /\ width (set 1 1 (VObj 0) grid3).2 = width grid3
  /\ height (set 1 1 (VObj 0) grid3).2 = height grid3.
Proof. apply (set_frame grid3 1 1 (VObj 0) 0 2). discriminate. Defined.

(** X5: when every view is cached at its cell, [set] changes the record of
    no handle: the handle put in keeps its record, the handle taken out
    keeps a copy of it, and no other handle viewed the overwritten cell. *)
Theorem set_preserves_records (g : Grid.t) (i j : Z) (v : value) (k : nat) :
  views_cached g ->
  obj_record (set i j v g).2 k = obj_record g k.
Proof.
  intros Hinv.
  destruct (decide (0 <= i < width g /\ 0 <= j < height g)) as [[Hi Hj]|Hout].
  2:{ rewrite (set_outside g i j v Hout). reflexivity. }
  destruct (set_unfold g i j v Hi Hj) as (Hw & Hs & Hc & Ho & _).
  assert (Hrest : match v with VObj o => k <> o | _ => True end ->
                  obj_record (set i j v g).2 k = obj_record g k).
  { intros Hk. unfold obj_record at 1. rewrite (Ho k Hk).
    destruct (detached g i j k) as [r|x y] eqn:Hd.
    - rewrite <- (deref_detached g i j k), Hd. reflexivity.
    - apply detached_View in Hd as [Hd Hne]. unfold obj_record. rewrite Hd. simpl.
      apply Hc. intros E. injection E as -> ->. apply Hne, Hinv, Hd. }
  destruct v as [|o|a|]; try (apply Hrest; exact I).
  destruct (decide (k = o)) as [->|Hne]; [|apply Hrest; exact Hne].
  rewrite set_VObj by assumption. unfold obj_record at 1. simpl.
  rewrite Nat.eqb_refl. simpl. rewrite !Z.eqb_refl. reflexivity.
Qed.

Lemma set_preserves_records_witness :
  obj_record (set 1 1 (VObj 0) grid3).2 0%nat = obj_record grid3 0%nat.
Proof.
  apply (set_preserves_records grid3 1 1 (VObj 0) 0%nat). intros o x y H. discriminate H.
Defined.

Lemma get_miss_empty (g : Grid.t) (i j : Z) :
  0 <= i < width g -> 0 <= j < height g ->
  world_objects g !! (i, j) = None ->
  WorldObj.type_idx (WorldObjState.cells (state g) i j) = Type_.to_index Type_.empty ->
  get i j g = (inr VNone, with_world_objects <[(i, j) := VNone]> g).
Proof.
  intros Hi Hj Hc Ht. unfold get, from_state. run.
  rewrite (in_bounds_true _ _ Hi). simpl. rewrite (in_bounds_true _ _ Hj). simpl.
  rewrite Hc. simpl. rewrite Ht. simpl. rewrite lookup_insert_eq. reflexivity.
Qed.

(** X6: an in-bounds [get] never raises and never writes to [state]; it
    leaves the cache entries of the other coordinates alone, keeps the
    invariant that views are cached at their cell, and its answer is
    cached: asking again returns the same value and changes nothing. *)
Theorem get_caches (g : Grid.t) (i j : Z) :
  0 <= i < width g -> 0 <= j < height g ->
  exists v g',
    get i j g = (inr v, g')
    /\ state g' = state g
    /\ world_objects g' !! (i, j) = Some v
    /\ get i j g' = (inr v, g')
    /\ (forall x y, (x, y) <> (i, j) -> world_objects g' !! (x, y) = world_objects g !! (x, y))
    /\ (views_cached g -> views_cached g').
Proof.
  intros Hi Hj. destruct (world_objects g !! (i, j)) as [v|] eqn:Hc.
  - exists v, g. rewrite (get_cached g i j v Hi Hj Hc). repeat split; auto.
  - destruct (decide (WorldObj.type_idx (WorldObjState.cells (state g) i j)
                      = Type_.to_index Type_.empty)) as [Ht|Ht].
    + rewrite (get_miss_empty g i j Hi Hj Hc Ht). eexists _, _. split; [reflexivity|].
      split; [reflexivity|]. split; [apply lookup_insert_eq|]. split.
      * apply get_cached; try assumption. apply lookup_insert_eq.
      * split.
        -- intros x y Hxy. simpl. apply lookup_insert_ne. congruence.
        -- intros Hinv o x y Ho. simpl in *. specialize (Hinv o x y Ho).
           rewrite lookup_insert_ne; [exact Hinv | congruence].
    + rewrite (get_miss g i j Hi Hj Hc Ht). eexists _, _. split; [reflexivity|].
      split; [reflexivity|]. split; [apply lookup_insert_eq|]. split.
      * apply get_cached; try assumption. apply lookup_insert_eq.
      * split.
        -- intros x y Hxy. simpl. apply lookup_insert_ne. congruence.
        -- intros Hinv o x y Ho. simpl in *.
           destruct (Nat.eqb_spec o (next_obj g)) as [->|Hne].
           ++ injection Ho as <- <-. apply lookup_insert_eq.
           ++ specialize (Hinv o x y Ho). rewrite lookup_insert_ne; [exact Hinv | congruence].
Qed.

Lemma get_caches_witness :
  exists v g',
    get 1 1 grid3 = (inr v, g')
    /\ state g' = state grid3
    /\ world_objects g' !! (1, 1) = Some v
    /\ get 1 1 g' = (inr v, g')
    /\ (forall x y, (x, y) <> (1, 1) -> world_objects g' !! (x, y) = world_objects grid3 !! (x, y))
    /\ (views_cached grid3 -> views_cached g').
Proof. apply (get_caches grid3 1 1); change (0 <= 1 < 3); lia. Defined.

Lemma cache_grows_refl (g : Grid.t) : cache_grows g g.
Proof. repeat split; auto. Qed.

Lemma cache_grows_trans (g1 g2 g3 : Grid.t) :
  cache_grows g1 g2 -> cache_grows g2 g3 -> cache_grows g1 g3.
Proof.
  intros (S1 & C1 & V1) (S2 & C2 & V2). repeat split; [congruence | auto | auto].
Qed.

Lemma get_grows (g : Grid.t) (i j : Z) :
  0 <= i < width g -> 0 <= j < height g ->
  exists v g', get i j g = (inr v, g') /\ cache_grows g g' /\ world_objects g' !! (i, j) = Some v.
Proof.
  intros Hi Hj. destruct (world_objects g !! (i, j)) as [v|] eqn:Hc.
  - exists v, g. rewrite (get_cached g i j v Hi Hj Hc).
    split; [reflexivity|]. split; [apply cache_grows_refl | exact Hc].
  - assert (Hgrow : forall v, (forall x y w, world_objects g !! (x, y) = Some w ->
                       <[(i, j) := v]> (world_objects g) !! (x, y) = Some w)).
    { intros v x y w Hw. rewrite lookup_insert_ne; [exact Hw | congruence]. }
    destruct (decide (WorldObj.type_idx (WorldObjState.cells (state g) i j)
                      = Type_.to_index Type_.empty)) as [Ht|Ht].
    + rewrite (get_miss_empty g i j Hi Hj Hc Ht). eexists _, _. split; [reflexivity|].
      split; [|apply lookup_insert_eq]. split; [reflexivity|]. split; [apply Hgrow|].
      intros Hinv o x y Ho. simpl in *. apply Hgrow, Hinv, Ho.
    + rewrite (get_miss g i j Hi Hj Hc Ht). eexists _, _. split; [reflexivity|].
      split; [|apply lookup_insert_eq]. split; [reflexivity|]. split; [apply Hgrow|].
      intros Hinv o x y Ho. simpl in *.
      destruct (Nat.eqb_spec o (next_obj g)) as [->|Hne].
      * injection Ho as <- <-. apply lookup_insert_eq.
      * apply Hgrow, Hinv, Ho.
Qed.

Lemma for_list_grows {St A B : Type} (R : St -> St -> Prop) (Q : A -> B -> St -> Prop)
    (f : A -> M St B) (l : list A) (s : St) :
  (forall s0, R s0 s0) ->
  (forall s1 s2 s3, R s1 s2 -> R s2 s3 -> R s1 s3) ->
  (forall a b s1 s2, Q a b s1 -> R s1 s2 -> Q a b s2) ->
  (forall a s1, In a l -> R s s1 -> exists b s2, f a s1 = (inr b, s2) /\ R s1 s2 /\ Q a b s2) ->
  exists bs s', for_list l f s = (inr bs, s') /\ R s s' /\ Forall2 (fun a b => Q a b s') l bs.
Proof.
  intros Hrefl Htrans Hstable. revert s. induction l as [|a l IH]; intros s Hbody.
  - exists [], s. split; [reflexivity|]. split; [apply Hrefl | constructor].
  - destruct (Hbody a s (or_introl eq_refl) (Hrefl s)) as (b & s2 & E & R2 & Q2).
    destruct (IH s2) as (bs & s' & E' & R' & F').
    { intros a' s1 Ha' R1. apply Hbody; [right; exact Ha' | eapply Htrans; eassumption]. }
    exists (b :: bs), s'. split.
    + simpl. unfold bind. rewrite E, E'. reflexivity.
    + split; [eapply Htrans; eassumption|]. constructor; [|exact F'].
      eapply Hstable; eassumption.
Qed.

Lemma for_list_fixed {St A B : Type} (f : A -> M St B) (l : list A) (bs : list B) (s : St) :
  Forall2 (fun a b => f a s = (inr b, s)) l bs -> for_list l f s = (inr bs, s).
Proof.
  induction 1 as [|a b l bs E _ IH]; [reflexivity|].
  simpl. unfold bind. rewrite E, IH. reflexivity.
Qed.

Lemma Forall2_cached_map {A : Type} (f : A -> Z * Z) (m : gmap (Z * Z) value)
    (l : list A) (vs : list value) :
  Forall2 (fun a v => m !! f a = Some v) l vs ->
  vs = map (fun a => default VNone (m !! f a)) l.
Proof.
  induction 1 as [|a v l vs E _ IH]; [reflexivity|]. simpl. rewrite E, <- IH. reflexivity.
Qed.

Lemma Forall2_with_In {A B : Type} (P : A -> B -> Prop) (l : list A) (bs : list B) :
  Forall2 P l bs -> Forall2 (fun a b => In a l /\ P a b) l bs.
Proof.
  induction 1 as [|a b l bs H _ IH]; constructor.
  - split; [left; reflexivity | exact H].
  - eapply Forall2_impl; [exact IH|]. intros a' b' [Hin HP]. split; [right; exact Hin | exact HP].
Qed.

Lemma Forall2_In_l {A B : Type} (P : A -> B -> Prop) (l : list A) (bs : list B) (a : A) :
  Forall2 P l bs -> In a l -> exists b, P a b.
Proof.
  induction 1 as [|a' b l bs H _ IH]; intros Hin; [destruct Hin|].
  destruct Hin as [->|Hin]; [exists b; exact H | apply IH, Hin].
Qed.

(** X7: the [grid] property never raises and never writes to [state].
    It asks [get] for every cell, so afterwards every cell of the grid has
    a cache entry, and the list it returns is the list of those entries,
    [i] outermost; entries that were cached before are kept (also stale
    ones), the invariant that views are cached at their cell is kept, and
    a second call returns the same list and changes nothing. *)
Theorem grid_caches_all (g : Grid.t) :
  exists vs g',
    Grid.grid g = (inr vs, g')
    /\ state g' = state g
    /\ (forall i j, 0 <= i < width g -> 0 <= j < height g ->
          is_Some (world_objects g' !! (i, j)))
    /\ vs = concat (map (fun i => map (fun j => default VNone (world_objects g' !! (i, j)))
                                   (range (height g)))
                        (range (width g)))
    /\ (forall x y v, world_objects g !! (x, y) = Some v -> world_objects g' !! (x, y) = Some v)
    /\ (views_cached g -> views_cached g')
    /\ Grid.grid g' = (inr vs, g').
Proof.
  set (Q := fun (i : Z) (col : list value) (s : Grid.t) =>
              Forall2 (fun j v => world_objects s !! (i, j) = Some v) (range (height g)) col).
  destruct (for_list_grows cache_grows Q
              (fun i => h <- gets height ;; for_list (range h) (fun j => get i j))
              (range (width g)) g) as (cols & g' & E & (Hst & Hgrow & Hinv) & F).
  - apply cache_grows_refl.
  - apply cache_grows_trans.
  - intros i col s1 s2 HQ (_ & Hg & _). unfold Q in *.
    eapply Forall2_impl; [exact HQ|]. intros j v Hv. apply Hg, Hv.
  - intros i s1 Hi R1. apply elem_of_range in Hi.
    assert (Hs1 : state s1 = state g) by (destruct R1 as [H _]; exact H).
    unfold bind at 1, gets at 1. unfold height at 1. rewrite Hs1. fold (height g).
    apply (for_list_grows cache_grows (fun j v s => world_objects s !! (i, j) = Some v)).
    + apply cache_grows_refl.
    + apply cache_grows_trans.
    + intros j v s2 s3 Hv (_ & Hg & _). apply Hg, Hv.
    + intros j s2 Hj R2. apply elem_of_range in Hj.
      assert (Hs2 : state s2 = state g) by (destruct R2 as [H _]; congruence).
      apply get_grows; unfold width, height in *; rewrite Hs2; assumption.
  - assert (Hw : width g' = width g) by (unfold width; rewrite Hst; reflexivity).
    assert (Hh : height g' = height g) by (unfold height; rewrite Hst; reflexivity).
    assert (Hcols : cols = map (fun i => map (fun j => default VNone (world_objects g' !! (i, j)))
                                        (range (height g))) (range (width g))).
    { clear E. induction F as [|i col l cols' Hc _ IH]; [reflexivity|]. simpl.
      rewrite <- IH. f_equal.
      apply (Forall2_cached_map (fun j => (i, j)) (world_objects g')). exact Hc. }
    exists (concat cols), g'. split.
    { unfold grid. unfold bind at 1, gets at 1. unfold bind at 1. rewrite E. reflexivity. }
    split; [exact Hst|]. split.
    { intros i j Hi Hj.
      destruct (Forall2_In_l _ _ _ i F (proj2 (elem_of_range _ _) Hi)) as (col & Hc).
      destruct (Forall2_In_l _ _ _ j Hc (proj2 (elem_of_range _ _) Hj)) as (v & Hv).
      exists v. exact Hv. }
    split; [rewrite Hcols; reflexivity|]. split; [exact Hgrow|]. split; [exact Hinv|].
    unfold grid. unfold bind at 1, gets at 1. unfold bind at 1.
    rewrite (for_list_fixed _ _ cols); [reflexivity|].
    rewrite Hw. eapply Forall2_impl; [exact (Forall2_with_In _ _ _ F)|].
    intros i col [Hi Hc]. apply elem_of_range in Hi.
    unfold bind, gets. rewrite Hh. apply for_list_fixed.
    eapply Forall2_impl; [exact (Forall2_with_In _ _ _ Hc)|].
    intros j v [Hj Hv]. apply elem_of_range in Hj.
    apply get_cached; [rewrite Hw; exact Hi | rewrite Hh; exact Hj | exact Hv].
Qed.

Lemma same_cache_refl g : same_cache g g.
Proof. repeat split. Qed.

Lemma same_cache_trans g1 g2 g3 : same_cache g1 g2 -> same_cache g2 g3 -> same_cache g1 g3.
Proof. intros (A & B & C & D) (A' & B' & C' & D'). repeat split; congruence. Qed.

Lemma for_each_setitem (l : list Z) (fx fy : Z -> Z) (r : WorldObj.record) (g : Grid.t) :
  exists g',
    for_each l (fun a => modify (with_state (fun s => WorldObjState.setitem s (fx a) (fy a) r))) g
      = (inr tt, g')
    /\ same_cache g g'
    /\ forall a b, WorldObjState.cells (state g') a b
         = if existsb (fun k => (a =? fx k) && (b =? fy k)) l then r
           else WorldObjState.cells (state g) a b.
Proof.
  revert g. induction l as [|k l IH]; intros g.
  - exists g. split; [reflexivity|]. split; [apply same_cache_refl|]. reflexivity.
  - simpl. unfold bind, modify at 1.
    destruct (IH (with_state (fun s => WorldObjState.setitem s (fx k) (fy k) r) g))
      as (g' & E & Hs & Hc).
    exists g'. split; [exact E|]. split.
    + eapply same_cache_trans; [|exact Hs]. repeat split.
    + intros a b. rewrite Hc. simpl.
      destruct ((a =? fx k) && (b =? fy k)); simpl;
        destruct (existsb _ l); reflexivity.
Qed.

Lemma existsb_slice (P : Z -> bool) (lo n : Z) :
  existsb P (map (fun k => lo + k) (range n)) = true <-> exists a, lo <= a < lo + n /\ P a = true.
Proof.
  rewrite existsb_exists. split.
  - intros (a & Ha & HP). apply in_map_iff in Ha as (k & <- & Hk).
    apply elem_of_range in Hk. exists (lo + k). split; [lia | exact HP].
  - intros (a & Ha & HP). exists a. split; [|exact HP].
    apply in_map_iff. exists (a - lo). split; [lia|]. apply elem_of_range. lia.
Qed.

Lemma bool_eq_iff (b c : bool) : (b = true <-> c = true) -> b = c.
Proof.
  destruct b, c; intros [H1 H2]; try reflexivity.
  - symmetry. apply H1. reflexivity.
  - apply H2. reflexivity.
Qed.

Lemma axis_index_in (k n : Z) : 0 <= k < n -> axis_index k n = Some k.
Proof. intros H. unfold axis_index. rewrite (in_bounds_true _ _ H). reflexivity. Qed.

Lemma slice_member (x : Z) (length : option Z) (n a : Z) :
  0 <= x -> 0 <= n -> match length with Some l => 0 <= l | None => True end ->
  let len := match length with None => n - x | Some l => l end in
  (exists k, In k (slice_indices x (x + len) n) /\ a = k) <-> x <= a < wall_stop x length n.
Proof.
  intros Hx Hn Hl len. unfold slice_indices, wall_stop.
  replace (x <? 0) with false by (symmetry; apply Z.ltb_ge; lia).
  assert (Hlen : 0 <= x + len \/ (length = None /\ x + len = n)).
  { subst len. destruct length; [left; lia | right; split; [reflexivity | lia]]. }
  replace (x + len <? 0) with false
    by (symmetry; apply Z.ltb_ge; destruct Hlen as [?|[_ ?]]; lia).
  split.
  - intros (k & Hk & ->). apply in_map_iff in Hk as (d & <- & Hd).
    apply elem_of_range in Hd. subst len. destruct length; lia.
  - intros Ha. exists a. split; [|reflexivity]. apply in_map_iff.
    exists (a - Z.min x n). split; [lia|]. apply elem_of_range. subst len. destruct length; lia.
Qed.

Lemma horz_wall_cells (g : Grid.t) (x y : Z) (length : option Z) (r : WorldObj.record) :
  0 <= x -> 0 <= width g -> 0 <= y < height g ->
  match length with Some l => 0 <= l | None => True end ->
  exists g',
    horz_wall x y length r g = (inr tt, g')
    /\ same_cache g g'
    /\ forall a b, WorldObjState.cells (state g') a b
         = if (b =? y) && (x <=? a) && (a <? wall_stop x length (width g)) then r
           else WorldObjState.cells (state g) a b.
Proof.
  intros Hx Hw Hy Hl. unfold horz_wall. unfold bind at 1 2, gets at 1 2.
  rewrite (axis_index_in _ _ Hy).
  destruct (for_each_setitem
              (slice_indices x (x + match length with None => width g - x | Some l => l end) (width g))
              (fun a => a) (fun _ => y) r g) as (g' & E & Hs & Hc).
  exists g'. split; [exact E|]. split; [exact Hs|].
  intros a b. rewrite Hc.
  match goal with |- (if ?b1 then _ else _) = (if ?b2 then _ else _) =>
    replace b1 with b2; [reflexivity | symmetry; apply bool_eq_iff] end.
  rewrite existsb_exists, !andb_true_iff, Z.eqb_eq, Z.leb_le, Z.ltb_lt.
  pose proof (slice_member x length (width g) a Hx Hw Hl) as Hm. simpl in Hm.
  split.
  - intros (k & Hk & Hab). apply andb_true_iff in Hab as [Ha Hb].
    apply Z.eqb_eq in Ha, Hb. subst k.
    assert (x <= a < wall_stop x length (width g)) by (apply Hm; eauto). lia.
  - intros [[Hb Ha1] Ha2]. destruct (proj2 Hm (conj Ha1 Ha2)) as (k & Hk & ->).
    exists k. split; [exact Hk|]. rewrite Z.eqb_refl. simpl. apply Z.eqb_eq. exact Hb.
Qed.

Lemma vert_wall_cells (g : Grid.t) (x y : Z) (length : option Z) (r : WorldObj.record) :
  0 <= y -> 0 <= height g -> 0 <= x < width g ->
  match length with Some l => 0 <= l | None => True end ->
  exists g',
    vert_wall x y length r g = (inr tt, g')
    /\ same_cache g g'
    /\ forall a b, WorldObjState.cells (state g') a b
         = if (a =? x) && (y <=? b) && (b <? wall_stop y length (height g)) then r
           else WorldObjState.cells (state g) a b.
Proof.
  intros Hy Hh Hx Hl. unfold vert_wall. unfold bind at 1 2, gets at 1 2.
  rewrite (axis_index_in _ _ Hx).
  destruct (for_each_setitem
              (slice_indices y (y + match length with None => height g - y | Some l => l end) (height g))
              (fun _ => x) (fun b => b) r g) as (g' & E & Hs & Hc).
  exists g'. split; [exact E|]. split; [exact Hs|].
  intros a b. rewrite Hc.
  match goal with |- (if ?b1 then _ else _) = (if ?b2 then _ else _) =>
    replace b1 with b2; [reflexivity | symmetry; apply bool_eq_iff] end.
  rewrite existsb_exists, !andb_true_iff, Z.eqb_eq, Z.leb_le, Z.ltb_lt.
  pose proof (slice_member y length (height g) b Hy Hh Hl) as Hm. simpl in Hm.
  split.
  - intros (k & Hk & Hab). apply andb_true_iff in Hab as [Ha Hb].
    apply Z.eqb_eq in Ha, Hb. subst k.
    assert (y <= b < wall_stop y length (height g)) by (apply Hm; eauto). lia.
  - intros [[Ha Hb1] Hb2]. destruct (proj2 Hm (conj Hb1 Hb2)) as (k & Hk & ->).
    exists k. split; [exact Hk|]. rewrite Z.eqb_refl, andb_true_r. apply Z.eqb_eq. exact Ha.
Qed.

(** X8: [horz_wall(x, y, length)] on a row of the grid never raises and
    writes the wall into exactly the cells of row y from column x up to,
    but not including, column x + length, cut off at the right edge (the
    whole rest of the row when [length] is [None]); every other cell, the
    object cache and the handles stay as they were. *)
Theorem horz_wall_clips (g : Grid.t) (x y : Z) (length : option Z) (r : WorldObj.record) :
  0 <= x -> 0 <= width g -> 0 <= y < height g ->
  match length with Some l => 0 <= l | None => True end ->
  exists g',
    horz_wall x y length r g = (inr tt, g')
    /\ same_cache g g'
    /\ forall a b, WorldObjState.cells (state g') a b
         = if (b =? y) && (x <=? a) && (a <? wall_stop x length (width g)) then r
           else WorldObjState.cells (state g) a b.
Proof. intros Hx Hw Hy Hl. exact (horz_wall_cells g x y length r Hx Hw Hy Hl). Qed.

Lemma horz_wall_clips_witness :
  exists g',
    horz_wall 1 0 (Some 7) red_ball grid3 = (inr tt, g')
    /\ same_cache grid3 g'
    /\ forall a b, WorldObjState.cells (state g') a b
         = if (b =? 0) && (1 <=? a) && (a <? wall_stop 1 (Some 7) (width grid3)) then red_ball
           else WorldObjState.cells (state grid3) a b.
Proof.
  apply (horz_wall_clips grid3 1 0 (Some 7) red_ball);
    [lia | change (0 <= 3); lia | change (0 <= 0 < 3); lia | simpl; lia].
Defined.

(** X9: [vert_wall(x, y, length)] on a column of the grid never raises
    and writes the wall into exactly the cells of column x from row y up
    to, but not including, row y + length, cut off at the bottom edge (the
    whole rest of the column when [length] is [None]); every other cell,
    the object cache and the handles stay as they were. *)
Theorem vert_wall_clips (g : Grid.t) (x y : Z) (length : option Z) (r : WorldObj.record) :
  0 <= y -> 0 <= height g -> 0 <= x < width g ->
  match length with Some l => 0 <= l | None => True end ->
  exists g',
    vert_wall x y length r g = (inr tt, g')
    /\ same_cache g g'
    /\ forall a b, WorldObjState.cells (state g') a b
         = if (a =? x) && (y <=? b) && (b <? wall_stop y length (height g)) then r
           else WorldObjState.cells (state g) a b.
Proof. intros Hy Hh Hx Hl. exact (vert_wall_cells g x y length r Hy Hh Hx Hl). Qed.

Lemma vert_wall_clips_witness :
  exists g',
    vert_wall 2 1 None red_ball grid3 = (inr tt, g')
    /\ same_cache grid3 g'
    /\ forall a b, WorldObjState.cells (state g') a b
         = if (a =? 2) && (1 <=? b) && (b <? wall_stop 1 None (height grid3)) then red_ball
           else WorldObjState.cells (state grid3) a b.
Proof.
  apply (vert_wall_clips grid3 2 1 None red_ball);
    [lia | change (0 <= 3); lia | change (0 <= 2 < 3); lia | exact I].
Defined.

Lemma bind_same_cache {A B : Type} (m : M Grid.t A) (k : A -> M Grid.t B) (g : Grid.t) :
  (forall g0, same_cache g0 (m g0).2) ->
  (forall a g0, same_cache g0 (k a g0).2) ->
  same_cache g (bind m k g).2.
Proof.
  intros Hm Hk. unfold bind. specialize (Hm g). destruct (m g) as [[e|a] g1]; simpl in *.
  - exact Hm.
  - eapply same_cache_trans; [exact Hm | apply Hk].
Qed.

Lemma horz_wall_same_cache x y length r g : same_cache g (horz_wall x y length r g).2.
Proof.
  unfold horz_wall. unfold bind at 1 2, gets at 1 2.
  destruct (axis_index y (height g)) as [y'|]; [|apply same_cache_refl].
  match goal with |- context [for_each ?l _ g] =>
    destruct (for_each_setitem l (fun a => a) (fun _ => y') r g) as (g' & E & Hs & _) end.
  rewrite E. exact Hs.
Qed.

Lemma vert_wall_same_cache x y length r g : same_cache g (vert_wall x y length r g).2.
Proof.
  unfold vert_wall. unfold bind at 1 2, gets at 1 2.
  destruct (axis_index x (width g)) as [x'|]; [|apply same_cache_refl].
  match goal with |- context [for_each ?l _ g] =>
    destruct (for_each_setitem l (fun _ => x') (fun b => b) r g) as (g' & E & Hs & _) end.
  rewrite E. exact Hs.
Qed.

Lemma wall_rect_same_cache Wall x y w h g : same_cache g (wall_rect Wall x y w h g).2.
Proof.
  unfold wall_rect.
  apply bind_same_cache; [intros; apply horz_wall_same_cache | intros _ g1].
  apply bind_same_cache; [intros; apply horz_wall_same_cache | intros _ g2].
  apply bind_same_cache; [intros; apply vert_wall_same_cache | intros _ g3].
  apply vert_wall_same_cache.
Qed.

(** X12: the wall writers never touch [world_objects] or a handle: whatever
    a coordinate had cached before [wall_rect], [horz_wall] or [vert_wall],
    [get] still returns afterwards, even where the wall overwrote the
    cell. *)
Theorem walls_keep_cache (g : Grid.t) (Wall : WorldObj.record) (x y w h : Z)
    (length : option Z) (i j : Z) (v : value) :
  0 <= i < width g -> 0 <= j < height g ->
  world_objects g !! (i, j) = Some v ->
  get i j (wall_rect Wall x y w h g).2 = (inr v, (wall_rect Wall x y w h g).2)
  /\ get i j (horz_wall x y length Wall g).2 = (inr v, (horz_wall x y length Wall g).2)
  /\ get i j (vert_wall x y length Wall g).2 = (inr v, (vert_wall x y length Wall g).2).
Proof.
  intros Hi Hj Hc.
  assert (H : forall g', same_cache g g' -> get i j g' = (inr v, g')).
  { intros g' (Hw & _ & _ & Hs). apply get_cached.
    - unfold width. rewrite Hs. exact Hi.
    - unfold height. rewrite Hs. exact Hj.
    - rewrite Hw. exact Hc. }
  split; [|split]; apply H;
    [apply wall_rect_same_cache | apply horz_wall_same_cache | apply vert_wall_same_cache].
Qed.

Lemma walls_keep_cache_witness :
  (get 0 0 (wall_rect red_ball 0 0 3 3 asked_grid).2 = (inr VNone, (wall_rect red_ball 0 0 3 3 asked_grid).2)
   /\ get 0 0 (horz_wall 0 0 None red_ball asked_grid).2 = (inr VNone, (horz_wall 0 0 None red_ball asked_grid).2)
   /\ get 0 0 (vert_wall 0 0 None red_ball asked_grid).2 = (inr VNone, (vert_wall 0 0 None red_ball asked_grid).2))
  /\ WorldObjState.cells (state (wall_rect red_ball 0 0 3 3 asked_grid).2) 0 0 = red_ball.
Proof.
  split.
  - apply (walls_keep_cache asked_grid red_ball 0 0 3 3 None 0 0 VNone);
      [change (0 <= 0 < 3); lia | change (0 <= 0 < 3); lia | vm_compute; reflexivity].
  - vm_compute. reflexivity.
Defined.

Lemma slice_indices_past_end (x stop n : Z) : 0 <= n <= x -> slice_indices x stop n = [].
Proof.
  intros H. unfold slice_indices, range.
  replace (x <? 0) with false by (symmetry; apply Z.ltb_ge; lia).
  replace (Z.to_nat ((if stop <? 0 then Z.max (stop + n) 0 else Z.min stop n) - Z.min x n))
    with 0%nat; [reflexivity|].
  destruct (Z.ltb_spec stop 0); lia.
Qed.

(** X10: the two axes of a wall are indexed differently.  The row of
    [horz_wall] and the column of [vert_wall] are plain numpy indices:
    outside [-n, n) the call raises IndexError and writes nothing, and a
    negative index in range counts from the far edge.  The other
    coordinate starts a slice: when it lies past the far edge the call
    writes nothing and does not raise. *)
Theorem wall_index (g : Grid.t) (x y : Z) (length : option Z) (r : WorldObj.record) :
  (~ - height g <= y < height g -> horz_wall x y length r g = (inl IndexError, g))
  /\ (- height g <= y < 0 -> horz_wall x y length r g = horz_wall x (y + height g) length r g)
  /\ (0 <= width g <= x -> - height g <= y < height g ->
        horz_wall x y length r g = (inr tt, g))
  /\ (~ - width g <= x < width g -> vert_wall x y length r g = (inl IndexError, g))
  /\ (- width g <= x < 0 -> vert_wall x y length r g = vert_wall (x + width g) y length r g)
  /\ (0 <= height g <= y -> - width g <= x < width g ->
        vert_wall x y length r g = (inr tt, g)).
Proof.
  assert (Hout : forall k n, ~ - n <= k < n -> axis_index k n = None).
  { intros k n H. unfold axis_index.
    rewrite out_of_bounds_false by lia.
    replace ((- n <=? k) && (k <? 0)) with false; [reflexivity|].
    symmetry. apply not_true_is_false. rewrite andb_true_iff, Z.leb_le, Z.ltb_lt. lia. }
  assert (Hneg : forall k n, - n <= k < 0 -> axis_index k n = axis_index (k + n) n).
  { intros k n H. unfold axis_index.
    rewrite (out_of_bounds_false k n) by lia.
    rewrite (in_bounds_true (k + n) n) by lia.
    replace ((- n <=? k) && (k <? 0)) with true; [reflexivity|].
    symmetry. rewrite andb_true_iff, Z.leb_le, Z.ltb_lt. lia. }
  assert (Hin : forall k n, - n <= k < n -> exists k', axis_index k n = Some k').
  { intros k n H. destruct (axis_index k n) as [k'|] eqn:E; [eauto|].
    destruct (decide (0 <= k)) as [Hk|Hk].
    - rewrite axis_index_in in E by lia. discriminate E.
    - rewrite Hneg, axis_index_in in E by lia. discriminate E. }
  split; [|split; [|split; [|split; [|split]]]].
  - intros H. unfold horz_wall. unfold bind at 1 2, gets at 1 2. rewrite (Hout _ _ H). reflexivity.
  - intros H. unfold horz_wall. unfold bind at 1 2, gets at 1 2.
    unfold bind at 1 2, gets at 1 2. rewrite (Hneg _ _ H). reflexivity.
  - intros Hx Hy. unfold horz_wall. unfold bind at 1 2, gets at 1 2.
    destruct (Hin _ _ Hy) as (y' & ->). rewrite slice_indices_past_end by exact Hx. reflexivity.
  - intros H. unfold vert_wall. unfold bind at 1 2, gets at 1 2. rewrite (Hout _ _ H). reflexivity.
  - intros H. unfold vert_wall. unfold bind at 1 2, gets at 1 2.
    unfold bind at 1 2, gets at 1 2. rewrite (Hneg _ _ H). reflexivity.
  - intros Hy Hx. unfold vert_wall. unfold bind at 1 2, gets at 1 2.
    destruct (Hin _ _ Hx) as (x' & ->). rewrite slice_indices_past_end by exact Hy. reflexivity.
Qed.

(** X11: [wall_rect(x, y, w, h)] for a rectangle that fits in the grid
    never raises and puts the wall on exactly the border of the rectangle:
    the cells inside it, the cells outside it, the object cache and the
    handles stay as they were. *)
Theorem wall_rect_border (g : Grid.t) (Wall : WorldObj.record) (x y w h : Z) :
  0 <= x -> 0 <= y -> 1 <= w -> 1 <= h -> x + w <= width g -> y + h <= height g ->
  exists g',
    wall_rect Wall x y w h g = (inr tt, g')
    /\ same_cache g g'
    /\ forall a b, WorldObjState.cells (state g') a b
         = if on_border x y w h a b then Wall else WorldObjState.cells (state g) a b.
Proof.
  intros Hx Hy Hw Hh HW HH. unfold wall_rect.
  destruct (horz_wall_cells g x y (Some w) Wall) as (g1 & E1 & S1 & C1); try lia.
  assert (W1 : width g1 = width g /\ height g1 = height g).
  { destruct S1 as (_ & _ & _ & Hs). unfold width, height. rewrite Hs. auto. }
  destruct (horz_wall_cells g1 x (y + h - 1) (Some w) Wall) as (g2 & E2 & S2 & C2); try lia.
  assert (W2 : width g2 = width g /\ height g2 = height g).
  { destruct S2 as (_ & _ & _ & Hs). unfold width, height in *. rewrite Hs. exact W1. }
  destruct (vert_wall_cells g2 x y (Some h) Wall) as (g3 & E3 & S3 & C3); try lia.
  assert (W3 : width g3 = width g /\ height g3 = height g).
  { destruct S3 as (_ & _ & _ & Hs). unfold width, height in *. rewrite Hs. exact W2. }
  destruct (vert_wall_cells g3 (x + w - 1) y (Some h) Wall) as (g4 & E4 & S4 & C4); try lia.
  exists g4. unfold bind. rewrite E1, E2, E3, E4. split; [reflexivity|]. split.
  - eapply same_cache_trans; [|exact S4]. eapply same_cache_trans; [|exact S3].
    eapply same_cache_trans; [exact S1 | exact S2].
  - intros a b. rewrite C4, C3, C2, C1. unfold wall_stop, on_border.
    destruct W1 as [W1w W1h], W2 as [W2w W2h], W3 as [W3w W3h].
    rewrite ?W1w, ?W1h, ?W2w, ?W2h, ?W3w, ?W3h.
    rewrite !Z.min_l by lia.
    bool_cases; simpl; try reflexivity; lia.
Qed.

Lemma wall_rect_border_witness :
  exists g',
    wall_rect red_ball 0 0 3 3 grid3 = (inr tt, g')
    /\ same_cache grid3 g'
    /\ forall a b, WorldObjState.cells (state g') a b
         = if on_border 0 0 3 3 a b then red_ball else WorldObjState.cells (state grid3) a b.
Proof.
  apply (wall_rect_border grid3 red_ball 0 0 3 3);
    [lia | lia | lia | lia | change (0 + 3 <= 3); lia | change (0 + 3 <= 3); lia].
Defined.

Lemma eq_spec (g h : Grid.t) :
  Grid.eq g h = true <->
  WorldObjState.shape (state g) = WorldObjState.shape (state h)
  /\ forall i j, 0 <= i < width g -> 0 <= j < height g ->
       WorldObjState.cells (state g) i j = WorldObjState.cells (state h) i j.
Proof.
  unfold Grid.eq, WorldObjState.array_equal. rewrite andb_true_iff, bool_decide_eq_true.
  apply and_iff_compat_l. rewrite forallb_forall. split.
  - intros H i j Hi Hj. specialize (H i (proj2 (elem_of_range _ _) Hi)).
    rewrite forallb_forall in H. specialize (H j (proj2 (elem_of_range _ _) Hj)).
    apply bool_decide_eq_true in H. exact H.
  - intros H i Hi. apply forallb_forall. intros j Hj. apply bool_decide_eq_true.
    apply H; apply elem_of_range; assumption.
Qed.

(** X13: [__eq__] is an equivalence relation on grids that looks at [state]
    only: the object cache and the handles play no part, so a grid stays
    equal to itself across [get]. *)
Theorem grid_eq_equivalence :
  (forall g, Grid.eq g g = true)
  /\ (forall g h, Grid.eq g h = true -> Grid.eq h g = true)
  /\ (forall g h k, Grid.eq g h = true -> Grid.eq h k = true -> Grid.eq g k = true)
  /\ (forall g h, state g = state h -> Grid.eq g h = true)
  /\ (forall g i j, Grid.eq (get i j g).2 g = true).
Proof.
  assert (Hst : forall g h, state g = state h -> Grid.eq g h = true).
  { intros g h E. apply eq_spec. rewrite E. split; reflexivity. }
  split; [intros g; apply Hst; reflexivity|]. split; [|split; [|split; [exact Hst|]]].
  - intros g h H. apply eq_spec in H as [Hs Hc]. apply eq_spec. split; [congruence|].
    intros i j Hi Hj. symmetry. apply Hc; unfold width, height in *; rewrite Hs; assumption.
  - intros g h k H1 H2. apply eq_spec in H1 as [Hs1 Hc1]. apply eq_spec in H2 as [Hs2 Hc2].
    apply eq_spec. split; [congruence|]. intros i j Hi Hj.
    rewrite Hc1 by assumption. apply Hc2; unfold width, height in *; rewrite <- Hs1; assumption.
  - intros g i j. apply Hst.
    destruct (decide (0 <= i < width g /\ 0 <= j < height g)) as [[Hi Hj]|Hout].
    + destruct (world_objects g !! (i, j)) as [v|] eqn:Hc.
      * rewrite (get_cached g i j v Hi Hj Hc). reflexivity.
      * destruct (decide (WorldObj.type_idx (WorldObjState.cells (state g) i j)
                          = Type_.to_index Type_.empty)) as [Ht|Ht].
        -- rewrite (get_miss_empty g i j Hi Hj Hc Ht). reflexivity.
        -- rewrite (get_miss g i j Hi Hj Hc Ht). reflexivity.
    + rewrite (get_outside g i j Hout). reflexivity.
Qed.

(** X14: grids that are equal under [__eq__] have the same encoding, cell
    by cell inside the grid, under every visibility mask. *)
Theorem eq_same_encoding (g h : Grid.t) (vis_mask : option (Z -> Z -> bool)) :
  Grid.eq g h = true ->
  enc_shape (encode vis_mask g) = enc_shape (encode vis_mask h)
  /\ forall i j, 0 <= i < width g -> 0 <= j < height g ->
       enc (encode vis_mask g) i j = enc (encode vis_mask h) i j.
Proof.
  intros H. apply eq_spec in H as [Hs Hc]. split.
  - unfold encode, width, height. simpl. rewrite Hs. reflexivity.
  - intros i j Hi Hj. unfold encode, WorldObjState.encode. simpl.
    rewrite (Hc i j Hi Hj). reflexivity.
Qed.

(** X15: [decode] builds its grid with [Grid(width, height)], so an array
    narrower or shorter than 3 is refused, in particular the encoding of a
    grid that [from_grid_state] made from such an array. *)
Theorem decode_rejects_small (array : encoding) :
  (enc_shape array).1 < 3 \/ (enc_shape array).2 < 3 ->
  decode array = inl AssertionError
  /\ forall s : WorldObjState.t,
       WorldObjState.shape s = enc_shape array ->
       decode (encode None (from_grid_state s)) = inl AssertionError.
Proof.
  intros H.
  assert (Hd : forall a : encoding, enc_shape a = enc_shape array -> decode a = inl AssertionError).
  { intros a Ha. unfold decode, init. rewrite Ha.
    destruct (Z.leb_spec 3 (enc_shape array).1) as [H1|H1]; simpl; [|reflexivity].
    destruct (Z.leb_spec 3 (enc_shape array).2) as [H2|H2]; simpl; [lia | reflexivity]. }
  split; [apply Hd; reflexivity|].
  intros s Hs. apply Hd. unfold encode, width, height. simpl. rewrite Hs.
  destruct (enc_shape array). reflexivity.
Qed.

Lemma eq_same_encoding_witness :
  enc_shape (encode None asked_grid) = enc_shape (encode None grid3)
  /\ forall i j, 0 <= i < width asked_grid -> 0 <= j < height asked_grid ->
       enc (encode None asked_grid) i j = enc (encode None grid3) i j.
Proof. apply (eq_same_encoding asked_grid grid3 None). vm_compute. reflexivity. Defined.

Lemma decode_rejects_small_witness :
  decode {| enc_shape := (2, 5); enc := fun _ _ => (1, 0, 0) |} = inl AssertionError
  /\ forall s : WorldObjState.t,
       WorldObjState.shape s = (2, 5) ->
       decode (encode None (from_grid_state s)) = inl AssertionError.
Proof.
  apply (decode_rejects_small {| enc_shape := (2, 5); enc := fun _ _ => (1, 0, 0) |}).
  left. simpl. lia.
Defined.

Lemma decode_triple (G : Grid.t) (i j : Z) (e : Z * Z * Z) :
  0 <= i < width G -> 0 <= j < height G ->
  exists G',
    (let '(type_idx, color_idx, state) := e in
     v <- WorldObj_decode type_idx color_idx state ;; set i j v) G = (inr tt, G')
    /\ state G' = WorldObjState.setitem (state G) i j (decoded_record e).
Proof.
  intros Hi Hj. destruct e as [[t c] s]. unfold WorldObj_decode, decoded_record. simpl.
  destruct ((t =? 1) || (t =? 0)).
  - unfold bind at 1. unfold ret at 1. rewrite set_VNone by assumption.
    eexists. split; reflexivity.
  - unfold new_obj. run.
    set (G1 := {| world_objects := world_objects G; state := state G;
                  obj_state := fun k0 => if (k0 =? next_obj G)%nat
                                         then Owned (WorldObj.Rec t c s) else obj_state G k0;
                  next_obj := S (next_obj G) |}).
    change (exists G', set i j (VObj (next_obj G)) G1 = (inr tt, G')
                       /\ state G' = WorldObjState.setitem (state G) i j (WorldObj.Rec t c s)).
    rewrite (set_VObj G1) by assumption. eexists. split; [reflexivity|]. simpl.
    unfold obj_record. simpl. rewrite Nat.eqb_refl. reflexivity.
Qed.

Lemma decode_spec (array : encoding) :
  3 <= (enc_shape array).1 -> 3 <= (enc_shape array).2 ->
  exists g' vis_mask,
    decode array = inr (g', vis_mask)
    /\ WorldObjState.shape (state g') = enc_shape array
    /\ (forall i j, 0 <= i < (enc_shape array).1 -> 0 <= j < (enc_shape array).2 ->
          WorldObjState.cells (state g') i j = decoded_record (enc array i j))
    /\ (forall i j, vis_mask i j = negb ((enc array i j).1.1 =? Type_.to_index Type_.unseen)).
Proof.
  intros Hw Hh.
  set (w := (enc_shape array).1) in *. set (h := (enc_shape array).2) in *.
  pose (I := fun (n : Z) (G : Grid.t) =>
    WorldObjState.shape (state G) = (w, h)
    /\ forall x y, 0 <= x < n -> 0 <= y < h ->
         WorldObjState.cells (state G) x y = decoded_record (enc array x y)).
  unfold decode. fold w h. unfold init.
  replace (3 <=? w) with true by (symmetry; apply Z.leb_le; exact Hw).
  replace (3 <=? h) with true by (symmetry; apply Z.leb_le; exact Hh). simpl.
  match goal with |- context [for_each (range w) ?body ?s] =>
    destruct (for_range_inv I body w s) as (G' & E & Hshape & Hcells) end.
  - lia.
  - split; [reflexivity|]. intros x y Hx. lia.
  - intros i G0 Hi [Hs0 Hc0].
    pose (J := fun (m : Z) (G : Grid.t) =>
      WorldObjState.shape (state G) = (w, h)
      /\ forall x y, 0 <= y < h -> (0 <= x < i \/ (x = i /\ 0 <= y < m)) ->
           WorldObjState.cells (state G) x y = decoded_record (enc array x y)).
    match goal with |- context [for_each (range h) ?body] =>
      destruct (for_range_inv J body h G0) as (G1 & E1 & Hs1 & Hc1) end.
    + lia.
    + split; [exact Hs0|]. intros x y Hy [Hx|[_ Hx]]; [|lia]. apply Hc0; assumption.
    + intros j G2 Hj [Hs2 Hc2].
      destruct (decode_triple G2 i j (enc array i j)) as (G3 & E3 & Hst3).
      * unfold width. rewrite Hs2. exact Hi.
      * unfold height. rewrite Hs2. exact Hj.
      * exists G3. split; [exact E3|]. unfold J. rewrite Hst3. split; [exact Hs2|].
        intros x y Hy Hxy. simpl.
        destruct (Z.eqb_spec x i) as [->|Hxi]; simpl.
        -- destruct (Z.eqb_spec y j) as [->|Hyj]; [reflexivity|]. apply Hc2; [exact Hy|]. lia.
        -- apply Hc2; [exact Hy|]. lia.
    + exists G1. split; [exact E1|]. split; [exact Hs1|]. intros x y Hx Hy. apply Hc1; [exact Hy|]. lia.
  - rewrite E. eexists _, _. split; [reflexivity|]. split.
    + rewrite Hshape. unfold w, h. destruct (enc_shape array); reflexivity.
    + split; [exact Hcells | reflexivity].
Qed.

(** X16: the round trip under a visibility mask: for a grid of encodable
    kinds, [decode(encode(vis_mask))] returns the mask it was given, and a
    grid that agrees with the original on the visible cells and is empty on
    the masked ones. *)
Theorem decode_encode_masked (g : Grid.t) (m : Z -> Z -> bool) :
  3 <= width g -> 3 <= height g -> encodable g ->
  exists g' vis_mask,
    decode (encode (Some m) g) = inr (g', vis_mask)
    /\ width g' = width g /\ height g' = height g
    /\ forall i j, 0 <= i < width g -> 0 <= j < height g ->
         vis_mask i j = m i j
         /\ WorldObjState.cells (state g') i j
            = if m i j then WorldObjState.cells (state g) i j else WorldObj.empty.
Proof.
  intros Hw Hh Hg.
  destruct (decode_spec (encode (Some m) g) Hw Hh) as (g' & vm & E & Hs & Hc & Hm).
  exists g', vm. split; [exact E|]. simpl in Hs, Hc.
  split; [unfold width at 1; rewrite Hs; reflexivity|].
  split; [unfold height at 1; rewrite Hs; reflexivity|].
  intros i j Hi Hj. rewrite Hm, (Hc i j Hi Hj). simpl.
  destruct (m i j); [|split; reflexivity].
  unfold WorldObjState.encode, WorldObj.encode, decoded_record. simpl.
  destruct (Hg i j Hi Hj) as [->|(k & Hk & Ht)]; [split; reflexivity|].
  rewrite Ht. destruct (WorldObjState.cells (state g) i j) as [t c s]. simpl in *. subst t.
  destruct k; try discriminate Hk; split; reflexivity.
Qed.

Lemma decode_encode_masked_witness :
  exists g' vis_mask,
    decode (encode (Some (fun i j => i =? j)) ball_grid) = inr (g', vis_mask)
    /\ width g' = width ball_grid /\ height g' = height ball_grid
    /\ forall i j, 0 <= i < width ball_grid -> 0 <= j < height ball_grid ->
         vis_mask i j = (i =? j)
         /\ WorldObjState.cells (state g') i j
            = if i =? j then WorldObjState.cells (state ball_grid) i j else WorldObj.empty.
Proof.
  apply (decode_encode_masked ball_grid (fun i j => i =? j));
    [change (3 <= 3); lia | change (3 <= 3); lia | exact encodable_ball_grid].
Defined.

Lemma write_column_other_base (st : Store) (s : AgentState) (c : nat) (f : nat -> Z) (n : nat) :
  n <> base s -> (AgentState.write_column s c f st).2 !! n = st !! n.
Proof. intros H. unfold AgentState.write_column, modify. simpl. apply list_lookup_alter_ne. congruence. Qed.

Lemma write_column_same_base (st : Store) (s : AgentState) (c : nat) (f : nat -> Z) :
  (AgentState.write_column s c f st).2 !! base s
  = AgentState.update_rows s (fun n row => <[c := f n]> row) <$> st !! base s.
Proof. unfold AgentState.write_column, modify. simpl. apply list_lookup_alter_eq. Qed.

Lemma column_write_column_ne (st : Store) (s s' : AgentState) (c c' : nat) (f : nat -> Z) :
  c <> c' ->
  AgentState.column (AgentState.write_column s c f st).2 s' c' = AgentState.column st s' c'.
Proof.
  intros Hc. unfold AgentState.column, AgentState.window_rows.
  destruct (decide (base s' = base s)) as [E|E].
  - rewrite E, write_column_same_base. destruct (st !! base s) as [b|]; [|reflexivity]. simpl.
    apply list_eq. intros i. rewrite !list_lookup_fmap.
    destruct (decide (i < AgentState.size (dims s'))%nat) as [Hi|Hi].
    + rewrite !lookup_take_lt, !lookup_drop, list_lookup_imap by exact Hi.
      destruct (rows b !! (offset s' + i)%nat) as [row|]; [|reflexivity]. simpl.
      destruct (AgentState.in_window s (offset s' + i)); [|reflexivity].
      rewrite list_lookup_total_insert_ne by exact Hc. reflexivity.
    + rewrite !lookup_take_ge by lia. reflexivity.
  - rewrite write_column_other_base by exact E. reflexivity.
Qed.

Lemma carried_write_column (st : Store) (s s' : AgentState) (c : nat) (f : nat -> Z) :
  AgentState.window_carried (AgentState.write_column s c f st).2 s' = AgentState.window_carried st s'.
Proof.
  unfold AgentState.window_carried.
  destruct (decide (base s' = base s)) as [E|E].
  - rewrite E, write_column_same_base. destruct (st !! base s); reflexivity.
  - rewrite write_column_other_base by exact E. reflexivity.
Qed.

Lemma set_column_in (s : AgentState) (c : nat) (v : Z) (st : Store) :
  AgentState.in_int64 v = true ->
  AgentState.set_column s c v st
  = (inr tt, (AgentState.write_column s c (fun _ => v) st).2).
Proof. intros H. unfold AgentState.set_column. rewrite H. reflexivity. Qed.

Lemma set_pos_in (s : AgentState) (p : Z * Z) (st : Store) :
  AgentState.in_int64 p.1 = true -> AgentState.in_int64 p.2 = true ->
  AgentState.set_pos s p st
  = (inr tt, (AgentState.write_column s (S POS) (fun _ => p.2)
                (AgentState.write_column s POS (fun _ => p.1) st).2).2).
Proof. intros H1 H2. unfold AgentState.set_pos. rewrite H1, H2. reflexivity. Qed.

Lemma column_set_column_ne (st : Store) (s s' : AgentState) (c c' : nat) (v : Z) :
  c <> c' ->
  AgentState.column (AgentState.set_column s c v st).2 s' c' = AgentState.column st s' c'.
Proof.
  intros Hc. unfold AgentState.set_column.
  destruct (AgentState.in_int64 v); [apply column_write_column_ne; exact Hc | reflexivity].
Qed.

Lemma carried_set_column (st : Store) (s s' : AgentState) (c : nat) (v : Z) :
  AgentState.window_carried (AgentState.set_column s c v st).2 s' = AgentState.window_carried st s'.
Proof.
  unfold AgentState.set_column.
  destruct (AgentState.in_int64 v); [apply carried_write_column | reflexivity].
Qed.

(** X17: each setter writes its own columns only.  Through any view, of the
    same buffer or of another one, the fields that the setter does not
    name read as before, and the carried-object references are never
    touched. *)
Theorem setters_touch_one_field (st : Store) (s s' : AgentState) :
  (forall d c, c <> DIR ->
     AgentState.column (AgentState.set_dir s d st).2 s' c = AgentState.column st s' c)
  /\ (forall p c, c <> POS -> c <> S POS ->
        AgentState.column (AgentState.set_pos s p st).2 s' c = AgentState.column st s' c)
  /\ (forall b c, c <> TERMINATED ->
        AgentState.column (AgentState.set_terminated s b st).2 s' c = AgentState.column st s' c)
  /\ (forall name c, c <> COLOR ->
        AgentState.column (AgentState.set_color s name st).2 s' c = AgentState.column st s' c)
  /\ (forall d p b name,
        AgentState.window_carried (AgentState.set_dir s d st).2 s' = AgentState.window_carried st s'
        /\ AgentState.window_carried (AgentState.set_pos s p st).2 s' = AgentState.window_carried st s'
        /\ AgentState.window_carried (AgentState.set_terminated s b st).2 s' = AgentState.window_carried st s'
        /\ AgentState.window_carried (AgentState.set_color s name st).2 s' = AgentState.window_carried st s').
Proof.
  assert (Hpos : forall p,
            (AgentState.set_pos s p st).2
            = (AgentState.write_column s (S POS) (fun _ => p.2)
                 (AgentState.write_column s POS (fun _ => p.1) st).2).2
            \/ (AgentState.set_pos s p st).2 = st).
  { intros p. unfold AgentState.set_pos.
    destruct (AgentState.in_int64 p.1 && AgentState.in_int64 p.2); [left | right]; reflexivity. }
  split; [|split; [|split; [|split]]].
  - intros d c Hc. apply column_set_column_ne. congruence.
  - intros p c H1 H2. destruct (Hpos p) as [-> | ->]; [|reflexivity].
    rewrite !column_write_column_ne by congruence. reflexivity.
  - intros b c Hc. apply column_set_column_ne. congruence.
  - intros name c Hc. unfold AgentState.set_color.
    destruct (Color.of_name name); [apply column_set_column_ne; congruence | reflexivity].
  - intros d p b name. repeat split.
    + apply carried_set_column.
    + destruct (Hpos p) as [-> | ->]; [|reflexivity].
      rewrite !carried_write_column. reflexivity.
    + apply carried_set_column.
    + unfold AgentState.set_color.
      destruct (Color.of_name name); [apply carried_set_column | reflexivity].
Qed.

Lemma column_write_column_same (st : Store) (s : AgentState) (c : nat) (v : Z) :
  valid st s -> (c < AgentState.dim)%nat ->
  AgentState.column (AgentState.write_column s c (fun _ => v) st).2 s c
  = replicate (AgentState.size (dims s)) v.
Proof.
  intros (b & Hb & Hlen & Hrow) Hc. unfold AgentState.column, AgentState.window_rows.
  rewrite write_column_same_base, Hb. simpl.
  apply list_eq. intros i. rewrite list_lookup_fmap.
  destruct (decide (i < AgentState.size (dims s))%nat) as [Hi|Hi].
  - rewrite lookup_take_lt, lookup_drop, list_lookup_imap, lookup_replicate_2 by exact Hi.
    destruct (lookup_lt_is_Some_2 (rows b) (offset s + i)) as (row & Hr); [lia|].
    rewrite Hr. simpl. rewrite (proj2 (in_window_iff s _)) by lia.
    rewrite list_lookup_total_insert_eq; [reflexivity|]. rewrite (Hrow _ _ Hr). exact Hc.
  - rewrite lookup_take_ge by lia. symmetry. apply lookup_replicate_None. lia.
Qed.

Lemma valid_write_column (st : Store) (s s' : AgentState) (c : nat) (f : nat -> Z) :
  valid st s' -> valid (AgentState.write_column s c f st).2 s'.
Proof.
  intros (b & Hb & Hlen & Hrow).
  destruct (decide (base s' = base s)) as [E|E].
  - eexists. split; [rewrite E, write_column_same_base, <- E, Hb; reflexivity|]. simpl.
    rewrite length_imap. split; [exact Hlen|].
    intros n row Hn. rewrite list_lookup_imap in Hn.
    destruct (rows b !! n) as [row0|] eqn:Hr; [|discriminate]. simpl in Hn.
    injection Hn as <-. destruct (AgentState.in_window s n); [rewrite length_insert|]; eauto.
  - exists b. rewrite write_column_other_base by exact E. auto.
Qed.

(** X18: a value that fits the buffer's 64-bit integers is stored by the
    setter, which does not raise, and returned by the getter of the same
    field, for a scalar record and for a batch (where the value is
    broadcast): [pos], [terminated], and [dir], whose getter wraps the
    value of a scalar record with [Direction(...)] and so raises
    ValueError when the stored integer is no direction. *)
Theorem setter_getter_roundtrip (st : Store) (s : AgentState) (p : Z * Z) (d : Z) (b : bool) :
  valid st s ->
  AgentState.in_int64 p.1 = true -> AgentState.in_int64 p.2 = true ->
  AgentState.in_int64 d = true ->
  let n := AgentState.size (dims s) in
  (AgentState.set_pos s p ;;; AgentState.pos s) st
    = (inr (AgentState.as_field s (0, 0) (replicate n p)), (AgentState.set_pos s p st).2)
  /\ (AgentState.set_terminated s b ;;; AgentState.terminated s) st
     = (inr (AgentState.as_field s false (replicate n b)), (AgentState.set_terminated s b st).2)
  /\ (let st' := (AgentState.set_dir s d st).2 in
      AgentState.set_dir s d st = (inr tt, st')
      /\ AgentState.column st' s DIR = replicate n d
      /\ AgentState.dir s st'
         = match dims s with
           | [] => match Direction.of_index d with
                   | Some dd => (inr (AgentState.DirScalar dd), st')
                   | None => (inl ValueError, st')
                   end
           | _ => (inr (AgentState.DirBatch (replicate n d)), st')
           end).
Proof.
  intros Hv Hp1 Hp2 Hd n.
  assert (Hzip : forall (m : nat) (x y : Z), zip (replicate m x) (replicate m y) = replicate m (x, y)).
  { intros m x y. induction m as [|m IH]; simpl; [reflexivity|]. rewrite IH. reflexivity. }
  assert (Hmap : forall (m : nat) (b0 : bool),
            map (fun z => negb (z =? 0)) (replicate m (if b0 then 1 else 0)) = replicate m b0).
  { intros m b0. induction m as [|m IH]; simpl; [reflexivity|]. rewrite IH. destruct b0; reflexivity. }
  split; [|split].
  - unfold bind at 1. rewrite (set_pos_in s p st Hp1 Hp2).
    unfold AgentState.pos, bind, gets, ret. cbn [fst snd]. do 3 f_equal.
    rewrite (column_write_column_ne _ s s (S POS) POS) by (unfold POS; lia).
    rewrite column_write_column_same by (auto; unfold POS, AgentState.dim; simpl; lia).
    rewrite column_write_column_same
      by (try (apply valid_write_column; exact Hv); unfold POS, AgentState.dim; simpl; lia).
    rewrite Hzip. destruct p; reflexivity.
  - assert (Hs : AgentState.set_terminated s b st
                 = (inr tt, (AgentState.write_column s TERMINATED
                               (fun _ => if b then 1 else 0) st).2)).
    { unfold AgentState.set_terminated. apply set_column_in. destruct b; reflexivity. }
    unfold bind at 1. rewrite Hs.
    unfold AgentState.terminated, bind, gets, ret. cbn [fst snd]. do 3 f_equal.
    rewrite column_write_column_same by (auto; unfold TERMINATED, AgentState.dim; simpl; lia).
    apply Hmap.
  - intros st'.
    assert (Hs : AgentState.set_dir s d st
                 = (inr tt, (AgentState.write_column s DIR (fun _ => d) st).2)).
    { unfold AgentState.set_dir. apply set_column_in. exact Hd. }
    assert (Hcol : AgentState.column st' s DIR = replicate n d).
    { unfold st'. rewrite Hs. apply column_write_column_same; [exact Hv|].
      unfold DIR, AgentState.dim. simpl. lia. }
    split; [unfold st'; rewrite Hs; reflexivity|]. split; [exact Hcol|].
    unfold AgentState.dir, bind, gets. rewrite Hcol. unfold n.
    destruct (dims s) as [|m ds]; [|reflexivity].
    simpl. destruct (Direction.of_index d); reflexivity.
Qed.

(** X19: integer indexing of a batch.  An index in [-N, 0) is the same
    view as the index plus N; an index outside [-N, N) raises IndexError
    and leaves the store alone; an index in [0, N) gives a view of the
    same buffer, valid when the batch is, with the leading axis removed. *)
Theorem getitem_index (st : Store) (batch : AgentState) (N : nat) (rest : list nat) (k : Z) :
  dims batch = N :: rest ->
  (- Z.of_nat N <= k < 0 ->
     AgentState.getitem batch k st = AgentState.getitem batch (k + Z.of_nat N) st)
  /\ (~ - Z.of_nat N <= k < Z.of_nat N ->
        AgentState.getitem batch k st = (inl IndexError, st))
  /\ (0 <= k < Z.of_nat N ->
        exists s, AgentState.getitem batch k st = (inr (AgentState.ItemState s), st)
                  /\ base s = base batch /\ dims s = rest
                  /\ offset s = (offset batch + Z.to_nat k * AgentState.size rest)%nat
                  /\ (valid st batch -> valid st s)).
Proof.
  intros Hd. unfold AgentState.getitem. rewrite Hd. split; [|split].
  - intros Hk. unfold AgentState.norm_index.
    rewrite (out_of_bounds_false k) by lia. rewrite (in_bounds_true (k + Z.of_nat N)) by lia.
    replace ((- Z.of_nat N <=? k) && (k <? 0)) with true; [reflexivity|].
    symmetry. rewrite andb_true_iff, Z.leb_le, Z.ltb_lt. lia.
  - intros Hk. unfold AgentState.norm_index.
    rewrite (out_of_bounds_false k) by lia.
    replace ((- Z.of_nat N <=? k) && (k <? 0)) with false; [reflexivity|].
    symmetry. apply not_true_is_false. rewrite andb_true_iff, Z.leb_le, Z.ltb_lt. lia.
  - intros Hk. rewrite (norm_index_nonneg _ _ Hk). eexists. split; [reflexivity|].
    simpl. repeat split.
    intros (b & Hb & Hlen & Hrow). exists b. simpl. split; [exact Hb|]. split; [|exact Hrow].
    rewrite Hd in Hlen. simpl in Hlen.
    assert (Z.to_nat k * AgentState.size rest + AgentState.size rest
            <= N * AgentState.size rest)%nat; [|lia].
    replace (Z.to_nat k * AgentState.size rest + AgentState.size rest)%nat
      with (S (Z.to_nat k) * AgentState.size rest)%nat by lia.
    apply Nat.mul_le_mono_r. lia.
Qed.

Lemma setter_getter_roundtrip_witness :
  let n := AgentState.size (dims batch3) in
  (AgentState.set_pos batch3 (2, 1) ;;; AgentState.pos batch3) store3
    = (inr (AgentState.as_field batch3 (0, 0) (replicate n (2, 1))),
       (AgentState.set_pos batch3 (2, 1) store3).2)
  /\ (AgentState.set_terminated batch3 true ;;; AgentState.terminated batch3) store3
     = (inr (AgentState.as_field batch3 false (replicate n true)),
        (AgentState.set_terminated batch3 true store3).2)
  /\ (let st' := (AgentState.set_dir batch3 3 store3).2 in
      AgentState.set_dir batch3 3 store3 = (inr tt, st')
      /\ AgentState.column st' batch3 DIR = replicate n 3
      /\ AgentState.dir batch3 st'
         = match dims batch3 with
           | [] => match Direction.of_index 3 with
                   | Some dd => (inr (AgentState.DirScalar dd), st')
                   | None => (inl ValueError, st')
                   end
           | _ => (inr (AgentState.DirBatch (replicate n 3)), st')
           end).
Proof.
  apply (setter_getter_roundtrip store3 batch3 (2, 1) 3 true);
    [exact valid_store3 | reflexivity | reflexivity | reflexivity].
Defined.

Lemma getitem_index_witness :
  (- Z.of_nat 3 <= -1 < 0 ->
     AgentState.getitem batch3 (-1) store3 = AgentState.getitem batch3 (-1 + Z.of_nat 3) store3)
  /\ (~ - Z.of_nat 3 <= -1 < Z.of_nat 3 ->
        AgentState.getitem batch3 (-1) store3 = (inl IndexError, store3))
  /\ (0 <= -1 < Z.of_nat 3 ->
        exists s, AgentState.getitem batch3 (-1) store3 = (inr (AgentState.ItemState s), store3)
                  /\ base s = base batch3 /\ dims s = []
                  /\ offset s = (offset batch3 + Z.to_nat (-1) * AgentState.size [])%nat
                  /\ (valid store3 batch3 -> valid store3 s)).
Proof. apply (getitem_index store3 batch3 3 [] (-1)). reflexivity. Defined.

Lemma column_write_column_row (st : Store) (batch : AgentState) (N k c : nat) (v : Z) :
  valid st batch -> dims batch = [N] -> (k < N)%nat -> (c < AgentState.dim)%nat ->
  AgentState.column
    (AgentState.write_column
       {| base := base batch; offset := offset batch + k * AgentState.size []; dims := [] |}
       c (fun _ => v) st).2 batch c
  = <[k := v]> (AgentState.column st batch c).
Proof.
  intros (b & Hb & Hlen & Hrow) Hd Hk Hc.
  set (s := {| base := base batch; offset := offset batch + k * AgentState.size []; dims := [] |}).
  assert (Hsize : AgentState.size (dims batch) = N) by (rewrite Hd; simpl; lia).
  assert (Hb2 : (AgentState.write_column s c (fun _ => v) st).2 !! base batch
                = Some (AgentState.update_rows s (fun n row => <[c := v]> row) b)).
  { change (base batch) with (base s). rewrite write_column_same_base. simpl. rewrite Hb. reflexivity. }
  apply list_eq. intros i.
  destruct (decide (i < N)%nat) as [Hi|Hi].
  2:{ rewrite lookup_column_ge by lia. symmetry. apply lookup_ge_None.
      rewrite length_insert, length_column; [lia | exists b; auto]. }
  rewrite (lookup_column _ batch _ c i Hb2) by lia. simpl. rewrite list_lookup_imap.
  destruct (lookup_lt_is_Some_2 (rows b) (offset batch + i)) as (row & Hr); [lia|].
  rewrite Hr. simpl.
  assert (Hoi : AgentState.column st batch c !! i = Some (row !!! c)).
  { rewrite (lookup_column st batch b c i Hb) by lia. rewrite Hr. reflexivity. }
  destruct (decide (i = k)) as [->|Hne].
  - rewrite (proj2 (in_window_iff s _)) by (simpl; lia).
    rewrite list_lookup_insert_eq by (rewrite length_column; [lia | exists b; auto]).
    rewrite list_lookup_total_insert_eq; [reflexivity|]. rewrite (Hrow _ _ Hr). exact Hc.
  - rewrite list_lookup_insert_ne by congruence.
    replace (AgentState.in_window s (offset batch + i)) with false; [exact (eq_sym Hoi)|].
    symmetry. apply not_true_is_false. rewrite in_window_iff. simpl. lia.
Qed.

Lemma zip_insert {A B : Type} (xs : list A) (ys : list B) (k : nat) (x : A) (y : B) :
  zip (<[k := x]> xs) (<[k := y]> ys) = <[k := (x, y)]> (zip xs ys).
Proof.
  revert ys k. induction xs as [|a xs IH]; intros ys k; [reflexivity|].
  destruct ys as [|b ys]; [destruct k; reflexivity|].
  destruct k as [|k]; simpl; [reflexivity|]. rewrite IH. reflexivity.
Qed.

Lemma mapM_insert {A B : Type} (f : A -> option B) (l : list A) (cs : list B) (k : nat) (a : A) (c : B) :
  mapM f l = Some cs -> f a = Some c -> mapM f (<[k := a]> l) = Some (<[k := c]> cs).
Proof.
  revert cs k. induction l as [|x l IH]; intros cs k Hl Ha.
  - simpl in Hl. injection Hl as <-. reflexivity.
  - simpl in Hl. destruct (f x) as [y|] eqn:Hx; [|discriminate]. simpl in Hl.
    destruct (mapM f l) as [ys|] eqn:Hm; [|discriminate]. simpl in Hl. injection Hl as <-.
    destruct k as [|k]; simpl.
    + rewrite Ha. simpl. rewrite Hm. reflexivity.
    + rewrite Hx. simpl. rewrite (IH ys k eq_refl Ha). reflexivity.
Qed.

Lemma from_index_to_index (c : Color.t) : Color.from_index (Color.to_index c) = Some c.
Proof. destruct c; reflexivity. Qed.

Lemma pos_batch (st : Store) (s : AgentState) (n : nat) (ds : list nat) :
  dims s = n :: ds ->
  AgentState.pos s st
  = (inr (AgentState.Batch (zip (AgentState.column st s POS) (AgentState.column st s (S POS)))), st).
Proof. intros Hd. unfold AgentState.pos, bind, gets, ret, AgentState.as_field. rewrite Hd. reflexivity. Qed.

Lemma terminated_batch (st : Store) (s : AgentState) (n : nat) (ds : list nat) :
  dims s = n :: ds ->
  AgentState.terminated s st
  = (inr (AgentState.Batch (map (fun z => negb (z =? 0)) (AgentState.column st s TERMINATED))), st).
Proof.
  intros Hd. unfold AgentState.terminated, bind, gets, ret, AgentState.as_field. rewrite Hd. reflexivity.
Qed.

Lemma color_batch (st : Store) (s : AgentState) (n : nat) (ds : list nat) :
  dims s = n :: ds ->
  AgentState.color s st
  = match mapM Color.from_index (AgentState.column st s COLOR) with
    | Some cs => (inr (AgentState.Batch cs), st)
    | None => (inl ValueError, st)
    end.
Proof.
  intros Hd. unfold AgentState.color, bind, gets.
  destruct (mapM Color.from_index (AgentState.column st s COLOR)); [|reflexivity].
  unfold ret, AgentState.as_field. rewrite Hd. reflexivity.
Qed.

(** X20: a value that fits the buffer written through the scalar view
    [batch[k]] shows in the batch at position k and nowhere else: the
    setters of [pos], [terminated] and [color] return, and the getters of
    the batch then return the old sequences with element k replaced. *)
Theorem scalar_write_shows_in_batch (st : Store) (batch : AgentState) (N : nat) (k : Z)
    (p : Z * Z) (b : bool) (name : string) (c : Color.t) (old_colors : list Color.t) :
  valid st batch -> dims batch = [N] -> 0 <= k < Z.of_nat N ->
  AgentState.in_int64 p.1 = true -> AgentState.in_int64 p.2 = true ->
  Color.of_name name = Some c ->
  AgentState.color batch st = (inr (AgentState.Batch old_colors), st) ->
  exists s old_pos old_terminated,
    AgentState.getitem batch k st = (inr (AgentState.ItemState s), st)
    /\ AgentState.pos batch st = (inr (AgentState.Batch old_pos), st)
    /\ AgentState.terminated batch st = (inr (AgentState.Batch old_terminated), st)
    /\ length old_pos = N /\ length old_terminated = N /\ length old_colors = N
    /\ (let st1 := (AgentState.set_pos s p st).2 in
        AgentState.set_pos s p st = (inr tt, st1)
        /\ AgentState.pos batch st1
           = (inr (AgentState.Batch (<[Z.to_nat k := p]> old_pos)), st1))
    /\ (let st2 := (AgentState.set_terminated s b st).2 in
        AgentState.set_terminated s b st = (inr tt, st2)
        /\ AgentState.terminated batch st2
           = (inr (AgentState.Batch (<[Z.to_nat k := b]> old_terminated)), st2))
    /\ (let st3 := (AgentState.set_color s name st).2 in
        AgentState.set_color s name st = (inr tt, st3)
        /\ AgentState.color batch st3
           = (inr (AgentState.Batch (<[Z.to_nat k := c]> old_colors)), st3)).
Proof.
  intros Hv Hd Hk Hp1 Hp2 Hn Hold.
  assert (HkN : (Z.to_nat k < N)%nat) by lia.
  assert (Hsize : AgentState.size (dims batch) = N) by (rewrite Hd; simpl; lia).
  unfold AgentState.getitem. rewrite Hd, (norm_index_nonneg _ _ Hk).
  set (s := {| base := base batch; offset := offset batch + Z.to_nat k * AgentState.size [];
               dims := [] |}).
  exists s, (zip (AgentState.column st batch POS) (AgentState.column st batch (S POS))),
    (map (fun z => negb (z =? 0)) (AgentState.column st batch TERMINATED)).
  split; [reflexivity|]. split; [apply (pos_batch st batch N [] Hd)|].
  split; [apply (terminated_batch st batch N [] Hd)|].
  rewrite (color_batch st batch N [] Hd) in Hold.
  destruct (mapM Color.from_index (AgentState.column st batch COLOR)) as [cs|] eqn:Hm;
    [|discriminate Hold].
  injection Hold as Hold.
  split; [rewrite length_zip, !length_column by exact Hv; lia|].
  split; [rewrite length_map, length_column by exact Hv; exact Hsize|].
  split.
  { rewrite <- Hold. apply length_mapM in Hm. rewrite <- Hm, length_column by exact Hv.
    exact Hsize. }
  split; [|split].
  - rewrite (set_pos_in s p st Hp1 Hp2). cbn [snd].
    split; [reflexivity|]. rewrite (pos_batch _ batch N [] Hd). do 3 f_equal.
    rewrite (column_write_column_ne _ s batch (S POS) POS) by (unfold POS; lia).
    rewrite (column_write_column_row st batch N (Z.to_nat k) POS)
      by (auto; unfold POS, AgentState.dim; simpl; lia).
    rewrite (column_write_column_row _ batch N (Z.to_nat k) (S POS))
      by (auto; try (apply valid_write_column; exact Hv); unfold POS, AgentState.dim; simpl; lia).
    rewrite (column_write_column_ne _ s batch POS (S POS)) by (unfold POS; lia).
    rewrite zip_insert. destruct p; reflexivity.
  - unfold AgentState.set_terminated.
    rewrite set_column_in by (destruct b; reflexivity). cbn [snd].
    split; [reflexivity|]. rewrite (terminated_batch _ batch N [] Hd). do 3 f_equal.
    rewrite (column_write_column_row st batch N (Z.to_nat k) TERMINATED)
      by (auto; unfold TERMINATED, AgentState.dim; simpl; lia).
    change (map (fun z : Z => negb (z =? 0)) (<[Z.to_nat k := if b then 1 else 0]> (AgentState.column st batch TERMINATED)))
      with ((fun z : Z => negb (z =? 0)) <$> (<[Z.to_nat k := if b then 1 else 0]> (AgentState.column st batch TERMINATED))).
    rewrite list_fmap_insert. destruct b; reflexivity.
  - unfold AgentState.set_color. rewrite Hn.
    rewrite set_column_in by (destruct c; reflexivity). cbn [snd].
    split; [reflexivity|]. rewrite (color_batch _ batch N [] Hd).
    rewrite (column_write_column_row st batch N (Z.to_nat k) COLOR)
      by (auto; unfold COLOR, AgentState.dim; simpl; lia).
    rewrite (mapM_insert _ _ cs _ _ c Hm (from_index_to_index c)).
    rewrite Hold. reflexivity.
Qed.

Lemma scalar_write_shows_in_batch_witness :
  exists s old_pos old_terminated,
    AgentState.getitem batch3 1 store3 = (inr (AgentState.ItemState s), store3)
    /\ AgentState.pos batch3 store3 = (inr (AgentState.Batch old_pos), store3)
    /\ AgentState.terminated batch3 store3 = (inr (AgentState.Batch old_terminated), store3)
    /\ length old_pos = 3%nat /\ length old_terminated = 3%nat
    /\ length [Color.red; Color.green; Color.blue] = 3%nat
    /\ (let st1 := (AgentState.set_pos s (2, 1) store3).2 in
        AgentState.set_pos s (2, 1) store3 = (inr tt, st1)
        /\ AgentState.pos batch3 st1
           = (inr (AgentState.Batch (<[Z.to_nat 1 := (2, 1)]> old_pos)), st1))
    /\ (let st2 := (AgentState.set_terminated s true store3).2 in
        AgentState.set_terminated s true store3 = (inr tt, st2)
        /\ AgentState.terminated batch3 st2
           = (inr (AgentState.Batch (<[Z.to_nat 1 := true]> old_terminated)), st2))
    /\ (let st3 := (AgentState.set_color s "yellow" store3).2 in
        AgentState.set_color s "yellow" store3 = (inr tt, st3)
        /\ AgentState.color batch3 st3
           = (inr (AgentState.Batch (<[Z.to_nat 1 := Color.yellow]>
                                       [Color.red; Color.green; Color.blue])), st3)).
Proof.
  apply (scalar_write_shows_in_batch store3 batch3 3 1 (2, 1) true "yellow" Color.yellow
           [Color.red; Color.green; Color.blue]);
    [exact valid_store3 | reflexivity | lia | reflexivity | reflexivity | reflexivity
    | vm_compute; reflexivity].
Defined.

Lemma new_scalar (st : Store) :
  AgentState.new [] st
  = (inr {| base := length st; offset := 0; dims := [] |},
     st ++ [{| rows := [default_row 0]; carried_obj := [None] |}]).
Proof.
  unfold AgentState.new, AgentState.write_column. run.
  rewrite !modify_alter_last. reflexivity.
Qed.

Lemma column_app (st : Store) (b : Buffer) (s : AgentState) (c : nat) :
  valid st s ->
  AgentState.column (st ++ [b]) s c = AgentState.column st s c /\ valid (st ++ [b]) s.
Proof.
  intros (b0 & Hb & Hlen & Hrow).
  assert (E : (st ++ [b]) !! base s = Some b0).
  { rewrite lookup_app_l; [exact Hb|]. apply lookup_lt_Some in Hb. exact Hb. }
  split.
  - unfold AgentState.column, AgentState.window_rows. rewrite E, Hb. reflexivity.
  - exists b0. auto.
Qed.

(** X21: [Agent(index, view_size=...)] is built exactly when [view_size] is
    odd and at least 3.  Without a [state] argument the agent gets a
    scalar [AgentState] in a buffer of its own: the views that existed
    before stay valid and read as before. *)
Theorem agent_init (st : Store) (index view_size : Z) (see_through_walls : bool) :
  (view_size mod 2 = 1 -> 3 <= view_size ->
     exists a st',
       Agent.init index None view_size see_through_walls st = (inr a, st')
       /\ Agent.index a = index /\ Agent.view_size a = view_size
       /\ base (Agent.state a) = length st /\ dims (Agent.state a) = []
       /\ valid st' (Agent.state a)
       /\ forall s' c, valid st s' ->
            AgentState.column st' s' c = AgentState.column st s' c /\ valid st' s')
  /\ (~ (view_size mod 2 = 1 /\ 3 <= view_size) ->
        forall state, (Agent.init index state view_size see_through_walls st).1
                      = inl AssertionError).
Proof.
  split.
  - intros Hodd Hge. unfold Agent.init. unfold bind at 1. rewrite new_scalar.
    unfold bind, assert_, ret.
    rewrite (proj2 (Z.eqb_eq _ _) Hodd), (proj2 (Z.leb_le _ _) Hge).
    eexists _, _. split; [reflexivity|]. simpl. repeat split.
    + eexists. split; [rewrite lookup_app_r by (simpl; lia); simpl; rewrite Nat.sub_diag; reflexivity|].
      split; [simpl; lia|]. intros [|n] row H; inversion H. reflexivity.
    + apply column_app. assumption.
    + apply (column_app st _ s' c). assumption.
  - intros Hbad state. unfold Agent.init.
    assert (Hs : exists s st', (match state with
                               | Some s => ret s
                               | None => AgentState.new []
                               end) st = (inr s, st')).
    { destruct state; [eexists _, _; reflexivity | rewrite new_scalar; eexists _, _; reflexivity]. }
    destruct Hs as (s & st' & Hs). unfold bind at 1. rewrite Hs.
    unfold bind, assert_, ret, raise.
    destruct (Z.eqb_spec (view_size mod 2) 1) as [H1|H1]; [|reflexivity].
    destruct (Z.leb_spec 3 view_size) as [H2|H2]; [tauto | reflexivity].
Qed.

Lemma set_carrying_None_store (s : AgentState) (st : Store) :
  AgentState.set_carrying_None s st
  = (inr tt, alter (AgentState.update_carried s None) (base s) (carrying_rows s st)).
Proof. reflexivity. Qed.

Lemma carrying_row_length (row : list Z) :
  length row = AgentState.dim ->
  length (take CARRYING row ++ WorldObj.to_row WorldObj.empty
            ++ drop (CARRYING + WorldObj.dim) row) = AgentState.dim.
Proof.
  intros H. rewrite !length_app, length_take, length_drop, H.
  unfold CARRYING, AgentState.dim, WorldObj.dim. simpl. lia.
Qed.

Lemma carrying_row_lookup (row : list Z) (c : nat) :
  length row = AgentState.dim ->
  (take CARRYING row ++ WorldObj.to_row WorldObj.empty
     ++ drop (CARRYING + WorldObj.dim) row) !!! c
  = if (c <? CARRYING)%nat then row !!! c
    else WorldObj.to_row WorldObj.empty !!! (c - CARRYING)%nat.
Proof.
  intros H. rewrite !list_lookup_total_alt.
  destruct (Nat.ltb_spec c CARRYING) as [Hc|Hc].
  - rewrite lookup_app_l by (rewrite length_take, H; unfold CARRYING, AgentState.dim in *; simpl; lia).
    rewrite lookup_take_lt by exact Hc. reflexivity.
  - rewrite lookup_app_r by (rewrite length_take; lia).
    rewrite length_take, H. unfold CARRYING, AgentState.dim, WorldObj.dim in *. simpl Nat.min.
    replace (drop (6 + 3) row) with (@nil Z)
      by (symmetry; apply drop_ge; rewrite H; simpl; lia).
    rewrite app_nil_r. rewrite <- list_lookup_total_alt. reflexivity.
Qed.

Lemma column_set_carrying (st : Store) (s s' : AgentState) (c : nat) :
  valid st s' ->
  valid (AgentState.set_carrying_None s st).2 s'
  /\ ((c < CARRYING)%nat ->
      AgentState.column (AgentState.set_carrying_None s st).2 s' c = AgentState.column st s' c)
  /\ (s' = s ->
      AgentState.column (AgentState.set_carrying_None s st).2 s' c
      = map (fun row => if (c <? CARRYING)%nat then row !!! c
                        else WorldObj.to_row WorldObj.empty !!! (c - CARRYING)%nat)
            (AgentState.window_rows st s')).
Proof.
  intros (b & Hb & Hlen & Hrow). rewrite set_carrying_None_store. cbn [snd].
  destruct (decide (base s' = base s)) as [E|E].
  2:{ assert (Hl : alter (AgentState.update_carried s None) (base s) (carrying_rows s st) !! base s'
                   = st !! base s').
      { unfold carrying_rows. rewrite !list_lookup_alter_ne by congruence. reflexivity. }
      split; [exists b; rewrite Hl; auto|].
      split; [intros _; unfold AgentState.column, AgentState.window_rows; rewrite Hl; reflexivity|].
      intros ->. congruence. }
  assert (Hl : alter (AgentState.update_carried s None) (base s) (carrying_rows s st) !! base s'
               = Some (AgentState.update_carried s None
                        (AgentState.update_rows s (fun _ row =>
                           take CARRYING row ++ WorldObj.to_row WorldObj.empty
                             ++ drop (CARRYING + WorldObj.dim) row) b))).
  { rewrite E. unfold carrying_rows. rewrite !list_lookup_alter_eq. rewrite <- E, Hb. reflexivity. }
  split; [|split].
  - eexists. split; [exact Hl|]. simpl. rewrite length_imap. split; [exact Hlen|].
    intros n row Hn. rewrite list_lookup_imap in Hn.
    destruct (rows b !! n) as [row0|] eqn:Hr; [|discriminate]. simpl in Hn. injection Hn as <-.
    destruct (AgentState.in_window s n); [apply carrying_row_length|]; eauto.
  - intros Hc. unfold AgentState.column, AgentState.window_rows. rewrite Hl, Hb. simpl.
    apply list_eq. intros i. rewrite !list_lookup_fmap.
    destruct (decide (i < AgentState.size (dims s'))%nat) as [Hi|Hi].
    + rewrite !lookup_take_lt, !lookup_drop, list_lookup_imap by exact Hi.
      destruct (rows b !! (offset s' + i)%nat) as [row|] eqn:Hr; [|reflexivity]. simpl.
      destruct (AgentState.in_window s (offset s' + i)); [|reflexivity].
      rewrite carrying_row_lookup by eauto.
      rewrite (proj2 (Nat.ltb_lt _ _) Hc). reflexivity.
    + rewrite !lookup_take_ge by lia. reflexivity.
  - intros ->. unfold AgentState.column, AgentState.window_rows. rewrite Hl, Hb. simpl.
    apply list_eq. intros i. rewrite !list_lookup_fmap.
    destruct (decide (i < AgentState.size (dims s))%nat) as [Hi|Hi].
    + rewrite !lookup_take_lt, !lookup_drop, list_lookup_imap by exact Hi.
      destruct (rows b !! (offset s + i)%nat) as [row|] eqn:Hr; [|reflexivity]. simpl.
      rewrite (proj2 (in_window_iff s _)) by lia.
      rewrite carrying_row_lookup by eauto. reflexivity.
    + rewrite !lookup_take_ge by lia. reflexivity.
Qed.

Lemma carried_set_carrying (st : Store) (s : AgentState) :
  AgentState.window_carried (AgentState.set_carrying_None s st).2 s
  = replicate (length (AgentState.window_carried st s)) None.
Proof.
  rewrite set_carrying_None_store. cbn [snd]. unfold AgentState.window_carried, carrying_rows.
  rewrite !list_lookup_alter_eq. destruct (st !! base s) as [b|]; [|reflexivity]. simpl.
  apply list_eq. intros i.
  destruct (decide (i < length (take (AgentState.size (dims s)) (drop (offset s) (carried_obj b))))%nat)
    as [Hi|Hi].
  - rewrite lookup_replicate_2 by exact Hi.
    rewrite length_take, length_drop in Hi.
    rewrite lookup_take_lt, lookup_drop, list_lookup_imap by lia.
    destruct (lookup_lt_is_Some_2 (carried_obj b) (offset s + i)) as (x & Hx); [lia|].
    rewrite Hx. simpl. rewrite (proj2 (in_window_iff s _)) by lia. reflexivity.
  - rewrite (proj1 (lookup_replicate_None _ _ _)) by lia.
    apply lookup_ge_None. rewrite length_take, length_drop, length_imap in *. lia.
Qed.

Lemma map_const_replicate {A B : Type} (f : A -> B) (v : B) (l : list A) :
  (forall x, f x = v) -> map f l = replicate (length l) v.
Proof. intros H. induction l as [|x l IH]; simpl; [reflexivity|]. rewrite H, IH. reflexivity. Qed.

Lemma length_window_rows (st : Store) (s : AgentState) :
  valid st s -> length (AgentState.window_rows st s) = AgentState.size (dims s).
Proof.
  intros (b & Hb & Hlen & _). unfold AgentState.window_rows. rewrite Hb.
  rewrite length_take, length_drop. lia.
Qed.

(** The columns of the agent's own view after [reset]. *)
Lemma reset_columns (st : Store) (a : Agent.t) :
  valid st (Agent.state a) ->
  let s := Agent.state a in
  let n := AgentState.size (dims s) in
  let st' := (Agent.reset a st).2 in
  valid st' s
  /\ AgentState.column st' s DIR = replicate n (-1)
  /\ AgentState.column st' s POS = replicate n (-1)
  /\ AgentState.column st' s (S POS) = replicate n (-1)
  /\ AgentState.column st' s TERMINATED = replicate n 0
  /\ AgentState.window_carried st' s = replicate (length (AgentState.window_carried st s)) None
  /\ AgentState.column st' s TYPE = AgentState.column st s TYPE
  /\ AgentState.column st' s COLOR = AgentState.column st s COLOR
  /\ (forall d, (d < WorldObj.dim)%nat ->
        AgentState.column st' s (CARRYING + d)
        = replicate n (WorldObj.to_row WorldObj.empty !!! d)).
Proof.
  intros Hv s n st'.
  set (st0 := (AgentState.write_column s POS (fun _ => -1) st).2).
  set (st1 := (AgentState.write_column s (S POS) (fun _ => -1) st0).2).
  set (st2 := (AgentState.write_column s DIR (fun _ => -1) st1).2).
  set (st3 := (AgentState.write_column s TERMINATED (fun _ => 0) st2).2).
  assert (E : st' = (AgentState.set_carrying_None s st3).2) by reflexivity.
  assert (V0 : valid st0 s) by (apply valid_write_column; exact Hv).
  assert (V1 : valid st1 s) by (apply valid_write_column; exact V0).
  assert (V2 : valid st2 s) by (apply valid_write_column; exact V1).
  assert (V3 : valid st3 s) by (apply valid_write_column; exact V2).
  destruct (column_set_carrying st3 s s 0 V3) as [V4 _].
  assert (Hlow : forall c, (c < CARRYING)%nat ->
            AgentState.column st' s c = AgentState.column st3 s c).
  { intros c Hc. rewrite E. apply (column_set_carrying st3 s s c V3). exact Hc. }
  assert (Hdim : forall c, (c < CARRYING)%nat -> (c < AgentState.dim)%nat).
  { intros c. unfold CARRYING, AgentState.dim. simpl. lia. }
  split; [rewrite E; exact V4|].
  split; [|split; [|split; [|split; [|split; [|split; [|split]]]]]].
  - rewrite Hlow by (unfold DIR, CARRYING; lia). unfold st3.
    rewrite column_write_column_ne by (unfold TERMINATED, DIR; lia).
    apply column_write_column_same; [exact V1 | apply Hdim; unfold DIR, CARRYING; lia].
  - rewrite Hlow by (unfold POS, CARRYING; lia). unfold st3, st2, st1.
    rewrite !column_write_column_ne by (unfold TERMINATED, DIR, POS; lia).
    apply column_write_column_same; [exact Hv | apply Hdim; unfold POS, CARRYING; lia].
  - rewrite Hlow by (unfold POS, CARRYING; lia). unfold st3, st2.
    rewrite !column_write_column_ne by (unfold TERMINATED, DIR, POS; lia).
    apply column_write_column_same; [exact V0 | apply Hdim; unfold POS, CARRYING; lia].
  - rewrite Hlow by (unfold TERMINATED, CARRYING; lia).
    apply column_write_column_same; [exact V2 | apply Hdim; unfold TERMINATED, CARRYING; lia].
  - rewrite E, carried_set_carrying.
    unfold st3, st2, st1, st0. rewrite !carried_write_column. reflexivity.
  - rewrite Hlow by (unfold TYPE, CARRYING; lia). unfold st3, st2, st1, st0.
    rewrite !column_write_column_ne by (unfold TERMINATED, DIR, POS, TYPE; lia). reflexivity.
  - rewrite Hlow by (unfold COLOR, CARRYING; lia). unfold st3, st2, st1, st0.
    rewrite !column_write_column_ne by (unfold TERMINATED, DIR, POS, COLOR; lia). reflexivity.
  - intros d Hd. rewrite E.
    rewrite (proj2 (proj2 (column_set_carrying st3 s s (CARRYING + d) V3)) eq_refl).
    rewrite (map_const_replicate _ (WorldObj.to_row WorldObj.empty !!! d)).
    + rewrite length_window_rows by exact V3. reflexivity.
    + intros row. replace (CARRYING + d <? CARRYING)%nat with false
        by (symmetry; apply Nat.ltb_ge; lia).
      replace (CARRYING + d - CARRYING)%nat with d by lia. reflexivity.
Qed.

(** X22: [Agent.reset] never raises.  Afterwards every record of the
    agent's state has [dir] -1, [pos] (-1, -1), [terminated] False and
    carries nothing (reference [None], numeric sub-record
    [WorldObj.empty()]); the type and colour columns are as before. *)
Theorem reset_clears (st : Store) (a : Agent.t) :
  valid st (Agent.state a) ->
  let s := Agent.state a in
  let n := AgentState.size (dims s) in
  let st' := (Agent.reset a st).2 in
  Agent.reset a st = (inr tt, st')
  /\ AgentState.column st' s DIR = replicate n (-1)
  /\ (AgentState.pos s st').1 = inr (AgentState.as_field s (0, 0) (replicate n (-1, -1)))
  /\ (AgentState.terminated s st').1 = inr (AgentState.as_field s false (replicate n false))
  /\ (AgentState.carrying s st').1
     = inr (AgentState.as_field s None
              (replicate (length (AgentState.window_carried st s)) None))
  /\ AgentState.column st' s TYPE = AgentState.column st s TYPE
  /\ AgentState.column st' s COLOR = AgentState.column st s COLOR
  /\ (forall d, (d < WorldObj.dim)%nat ->
        AgentState.column st' s (CARRYING + d)
        = replicate n (WorldObj.to_row WorldObj.empty !!! d)).
Proof.
  intros Hv s n st'.
  destruct (reset_columns st a Hv) as (_ & Hdir & Hx & Hy & Ht & Hcar & Hty & Hco & Hsub).
  fold s n st' in Hdir, Hx, Hy, Ht, Hcar, Hty, Hco, Hsub.
  assert (Hzip : forall (m : nat) (x y : Z), zip (replicate m x) (replicate m y) = replicate m (x, y)).
  { intros m x y. induction m as [|m IH]; simpl; [reflexivity|]. rewrite IH. reflexivity. }
  assert (Hmap : forall m : nat, map (fun z => negb (z =? 0)) (replicate m 0) = replicate m false).
  { intros m. induction m as [|m IH]; simpl; [reflexivity|]. rewrite IH. reflexivity. }
  split; [reflexivity|]. split; [exact Hdir|]. split; [|split; [|split; [|split; [|split]]]].
  - unfold AgentState.pos, bind, gets, ret. cbn [fst]. rewrite Hx, Hy, Hzip. reflexivity.
  - unfold AgentState.terminated, bind, gets, ret. cbn [fst]. rewrite Ht, Hmap. reflexivity.
  - unfold AgentState.carrying, bind, gets, ret. cbn [fst]. rewrite Hcar. reflexivity.
  - exact Hty.
  - exact Hco.
  - exact Hsub.
Qed.

Lemma valid_scalar_agent : valid (placed_agent []).2 (Agent.state example_agent).
Proof.
  eexists. split; [vm_compute; reflexivity|]. split; [simpl; lia|].
  intros [|n] row H; vm_compute in H; inversion H. reflexivity.
Qed.

Lemma reset_clears_witness :
  let st := (placed_agent []).2 in
  let s := Agent.state example_agent in
  let n := AgentState.size (dims s) in
  let st' := (Agent.reset example_agent st).2 in
  Agent.reset example_agent st = (inr tt, st')
  /\ AgentState.column st' s DIR = replicate n (-1)
  /\ (AgentState.pos s st').1 = inr (AgentState.as_field s (0, 0) (replicate n (-1, -1)))
  /\ (AgentState.terminated s st').1 = inr (AgentState.as_field s false (replicate n false))
  /\ (AgentState.carrying s st').1
     = inr (AgentState.as_field s None
              (replicate (length (AgentState.window_carried st s)) None))
  /\ AgentState.column st' s TYPE = AgentState.column st s TYPE
  /\ AgentState.column st' s COLOR = AgentState.column st s COLOR
  /\ (forall d, (d < WorldObj.dim)%nat ->
        AgentState.column st' s (CARRYING + d)
        = replicate n (WorldObj.to_row WorldObj.empty !!! d)).
Proof. apply (reset_clears (placed_agent []).2 example_agent). exact valid_scalar_agent. Defined.

(** X23: an agent that has been reset cannot be encoded: its direction is
    -1, which is no member of [Direction], so [Agent.encode] raises
    ValueError.  Once a direction has been set, [encode] returns the
    agent type index, the index of the colour the agent had before the
    reset, and the index of that direction, and changes nothing. *)
Theorem encode_after_reset (st : Store) (a : Agent.t) (c : Color.t) :
  valid st (Agent.state a) -> dims (Agent.state a) = [] ->
  AgentState.color (Agent.state a) st = (inr (AgentState.Scalar c), st) ->
  Agent.encode a (Agent.reset a st).2 = (inl ValueError, (Agent.reset a st).2)
  /\ forall d : Direction.t,
       let st2 := (AgentState.set_dir (Agent.state a) (Direction.to_index d)
                     (Agent.reset a st).2).2 in
       Agent.encode a st2
       = (inr (Type_.to_index Type_.agent, Color.to_index c, Direction.to_index d), st2).
Proof.
  intros Hv Hd Hc.
  destruct (reset_columns st a Hv) as (V' & Hdir & _ & _ & _ & _ & _ & Hco & _).
  rewrite Hd in Hdir. change (replicate (AgentState.size []) (-1)) with [-1] in Hdir.
  assert (Hcs : exists cs, mapM Color.from_index (AgentState.column st (Agent.state a) COLOR)
                           = Some cs
                           /\ AgentState.as_field (Agent.state a) Color.red cs
                              = AgentState.Scalar c).
  { unfold AgentState.color, bind, gets in Hc.
    destruct (mapM Color.from_index (AgentState.column st (Agent.state a) COLOR)) as [cs|];
      [|discriminate Hc].
    exists cs. split; [reflexivity|]. unfold ret in Hc. injection Hc as Hc. exact Hc. }
  destruct Hcs as (cs & Hm & Hf).
  split.
  - unfold Agent.encode, AgentState.color, AgentState.dir, bind, gets.
    rewrite Hco, Hm. unfold ret. rewrite Hdir, Hd. reflexivity.
  - intros d st2.
    assert (Hco2 : AgentState.column st2 (Agent.state a) COLOR
                   = AgentState.column st (Agent.state a) COLOR).
    { unfold st2, AgentState.set_dir.
      rewrite column_set_column_ne by (unfold DIR, COLOR; lia). exact Hco. }
    assert (Hdir2 : AgentState.column st2 (Agent.state a) DIR = [Direction.to_index d]).
    { unfold st2, AgentState.set_dir.
      rewrite set_column_in by (destruct d; reflexivity). cbn [snd].
      rewrite column_write_column_same.
      - rewrite Hd. reflexivity.
      - exact V'.
      - unfold DIR, AgentState.dim. simpl. lia. }
    unfold Agent.encode, AgentState.color, AgentState.dir, bind, gets.
    rewrite Hco2, Hm. unfold ret. rewrite Hf, Hdir2, Hd. simpl.
    rewrite of_index_to_index. reflexivity.
Qed.

Lemma encode_after_reset_witness :
  Agent.encode example_agent (Agent.reset example_agent (placed_agent []).2).2
    = (inl ValueError, (Agent.reset example_agent (placed_agent []).2).2)
  /\ forall d : Direction.t,
       let st2 := (AgentState.set_dir (Agent.state example_agent) (Direction.to_index d)
                     (Agent.reset example_agent (placed_agent []).2).2).2 in
       Agent.encode example_agent st2
       = (inr (Type_.to_index Type_.agent, Color.to_index Color.red, Direction.to_index d), st2).
Proof.
  apply (encode_after_reset (placed_agent []).2 example_agent Color.red);
    [exact valid_scalar_agent | reflexivity | vm_compute; reflexivity].
Defined.

(** X24: an agent built without a [state] argument starts with direction
    -1, so [encode] raises ValueError on it until a direction is set. *)
Theorem encode_fresh_agent (st st' : Store) (index view_size : Z) (see_through_walls : bool)
    (a : Agent.t) :
  Agent.init index None view_size see_through_walls st = (inr a, st') ->
  (Agent.encode a st').1 = inl ValueError.
Proof.
  unfold Agent.init. unfold bind at 1. rewrite new_scalar.
  unfold bind, assert_, ret, raise.
  destruct (view_size mod 2 =? 1); [|discriminate].
  destruct (3 <=? view_size); [|discriminate].
  intros H. injection H as <- <-.
  unfold Agent.encode, AgentState.color, AgentState.dir, bind, gets. cbn [Agent.state].
  assert (Hcol : forall c, AgentState.column
                   (st ++ [{| rows := [default_row 0]; carried_obj := [None] |}])
                   {| base := length st; offset := 0; dims := [] |} c
                 = [default_row 0 !!! c]).
  { intros c. unfold AgentState.column, AgentState.window_rows. cbn [base offset dims].
    rewrite lookup_app_r by lia. rewrite Nat.sub_diag. reflexivity. }
  rewrite Hcol. destruct (mapM Color.from_index _); [|reflexivity].
  unfold ret. rewrite Hcol. reflexivity.
Qed.

Lemma encode_fresh_agent_witness :
  (Agent.encode example_agent (Agent.init 0 None 7 false []).2).1 = inl ValueError.
Proof.
  apply (encode_fresh_agent [] (Agent.init 0 None 7 false []).2 0 7 false example_agent).
  vm_compute. reflexivity.
Defined.

Lemma of_index_Some (d : Z) (dd : Direction.t) :
  Direction.of_index d = Some dd <-> Direction.to_index dd = d.
Proof.
  split.
  - destruct d as [|[[|[]|]|[|[]|]|]|]; simpl; intros H; inversion H; reflexivity.
  - intros <-. apply of_index_to_index.
Qed.

(** C4 as stated fails: -1 is the value [__new__] and [reset] store for
    an unset direction, and after [batch.dir = -1] reading [batch[1].dir]
    does not return -1 but raises ValueError, because the getter wraps the
    integer of a scalar record with [Direction(...)]. *)
Lemma dir_unset_scalar_read_raises :
  let st1 := (AgentState.set_dir batch3 (-1) store3).2 in
  AgentState.set_dir batch3 (-1) store3 = (inr tt, st1)
  /\ exists s, AgentState.getitem batch3 1 st1 = (inr (AgentState.ItemState s), st1)
               /\ AgentState.dir s st1 = (inl ValueError, st1).
Proof. cbv zeta. split; [reflexivity|]. eexists. split; reflexivity. Qed.

(** C4, amended: for a batch view of N records, an index k in [0, N) and
    integers d, d' that fit the buffer, (1) the write [batch.dir = d]
    returns and puts d into every record: [batch.dir] is N times d, and
    [batch[k].dir] is the member of [Direction] with value d when d is one
    of 0..3 and raises ValueError for every other d, the unset value -1
    included; (2) [batch.dir] returns a sequence of length N, and after
    [batch[k].dir = d'], which returns, it returns that sequence with
    element k replaced by d': the scalar view writes into the storage of
    the batch. *)
Theorem batch_scalar_dir_consistency (st : Store) (batch : AgentState) (N : nat) (k d d' : Z) :
  dims batch = [N] -> valid st batch -> 0 <= k < Z.of_nat N ->
  AgentState.in_int64 d = true -> AgentState.in_int64 d' = true ->
  exists s old,
    (forall st0, AgentState.getitem batch k st0 = (inr (AgentState.ItemState s), st0))
    /\ (let st1 := (AgentState.set_dir batch d st).2 in
        AgentState.set_dir batch d st = (inr tt, st1)
        /\ AgentState.dir batch st1 = (inr (AgentState.DirBatch (replicate N d)), st1)
        /\ AgentState.dir s st1
           = match Direction.of_index d with
             | Some dd => (inr (AgentState.DirScalar dd), st1)
             | None => (inl ValueError, st1)
             end
        /\ forall dd, Direction.of_index d = Some dd <-> Direction.to_index dd = d)
    /\ AgentState.dir batch st = (inr (AgentState.DirBatch old), st)
    /\ length old = N
    /\ (let st2 := (AgentState.set_dir s d' st).2 in
        AgentState.set_dir s d' st = (inr tt, st2)
        /\ AgentState.dir batch st2
           = (inr (AgentState.DirBatch (<[Z.to_nat k := d']> old)), st2)).
Proof.
  intros Hd Hv Hk Hin Hin'.
  assert (Hsize : AgentState.size (dims batch) = N) by (rewrite Hd; simpl; lia).
  assert (Hdim : (DIR < AgentState.dim)%nat) by (unfold DIR, AgentState.dim; simpl; lia).
  set (s := {| base := base batch; offset := offset batch + Z.to_nat k * AgentState.size [];
               dims := [] |}).
  exists s, (AgentState.column st batch DIR).
  split.
  { intros st0. unfold AgentState.getitem. rewrite Hd, (norm_index_nonneg _ _ Hk). reflexivity. }
  split; [|split; [apply (dir_batch st batch N [] Hd)|split; [rewrite length_column; assumption|]]].
  - cbv zeta. unfold AgentState.set_dir. rewrite (set_column_in batch DIR d st Hin). cbn [snd].
    set (st1 := (AgentState.write_column batch DIR (fun _ => d) st).2).
    assert (Hcol : AgentState.column st1 batch DIR = replicate N d).
    { unfold st1. rewrite column_write_column_same by assumption. rewrite Hsize. reflexivity. }
    split; [reflexivity|]. split; [rewrite (dir_batch st1 batch N [] Hd), Hcol; reflexivity|].
    split; [|apply of_index_Some].
    assert (Hs : AgentState.column st1 s DIR = [d]).
    { destruct Hv as (b & Hb & Hlen & Hrow).
      destruct (write_column_store st batch b DIR (fun _ => d) Hb) as (st1' & E1 & Hb1).
      assert (Est : st1' = st1) by (unfold st1; rewrite E1; reflexivity). subst st1'.
      apply list_eq. intros [|i].
      - rewrite (lookup_column st1 s _ DIR 0 Hb1) by (simpl; lia). simpl.
        rewrite list_lookup_imap.
        replace (offset batch + Z.to_nat k * 1 + 0)%nat with (offset batch + Z.to_nat k)%nat by lia.
        destruct (lookup_lt_is_Some_2 (rows b) (offset batch + Z.to_nat k)) as (row & Hrk); [lia|].
        rewrite Hrk. simpl. rewrite (proj2 (in_window_iff batch _)) by lia.
        rewrite list_lookup_total_insert_eq; [reflexivity|]. rewrite (Hrow _ _ Hrk). exact Hdim.
      - rewrite lookup_column_ge by (simpl; lia). reflexivity. }
    unfold AgentState.dir, bind, gets. rewrite Hs. simpl.
    destruct (Direction.of_index d); reflexivity.
  - cbv zeta. unfold AgentState.set_dir. rewrite (set_column_in s DIR d' st Hin'). cbn [snd].
    split; [reflexivity|].
    rewrite (dir_batch _ batch N [] Hd). unfold s.
    rewrite (column_write_column_row st batch N (Z.to_nat k) DIR d') by (auto; lia).
    reflexivity.
Qed.

Lemma batch_scalar_dir_consistency_witness :
  exists s old,
    (forall st0, AgentState.getitem batch3 1 st0 = (inr (AgentState.ItemState s), st0))
    /\ (let st1 := (AgentState.set_dir batch3 2 store3).2 in
        AgentState.set_dir batch3 2 store3 = (inr tt, st1)
        /\ AgentState.dir batch3 st1 = (inr (AgentState.DirBatch (replicate 3 2)), st1)
        /\ AgentState.dir s st1
           = match Direction.of_index 2 with
             | Some dd => (inr (AgentState.DirScalar dd), st1)
             | None => (inl ValueError, st1)
             end
        /\ forall dd, Direction.of_index 2 = Some dd <-> Direction.to_index dd = 2)
    /\ AgentState.dir batch3 store3 = (inr (AgentState.DirBatch old), store3)
    /\ length old = 3%nat
    /\ (let st2 := (AgentState.set_dir s 3 store3).2 in
        AgentState.set_dir s 3 store3 = (inr tt, st2)
        /\ AgentState.dir batch3 st2
           = (inr (AgentState.DirBatch (<[Z.to_nat 1 := 3]> old)), st2)).
Proof.
  apply (batch_scalar_dir_consistency store3 batch3 3 1 2 3);
    [reflexivity | exact valid_store3 | lia | reflexivity | reflexivity].
Defined.










(** C3 as stated also fails for the move idiom: after [set(1, 1, o)] and
    [set(0, 0, None)] the ball is the cached handle of (1, 1), but its
    record is a private copy, and a write through it leaves the cell as
    it was. *)
Lemma moved_handle_detached :
  let g := (moved grid3).2 in
  world_objects g !! (1, 1) = Some (VObj 0)
  /\ obj_state g 0%nat = Owned red_ball
  /\ WorldObjState.cells (state (write_obj 0 yellow_ball g).2) 1 1 = red_ball.
Proof. vm_compute. auto. Qed.






